(** * LogFormer fine-tuning script ([tune_transformer.py])

    A shallow embedding of the script's control flow.  The script is
    orchestration around external components (the tensor framework,
    the metrics library, the repository's [Model] and [DataGenerator]
    classes), so those are kept abstract behind an interface, and the
    script itself is written as a program in a state-and-exception monad
    over an explicit world: the files and directories, the random
    generators, the wall clock, the console and a trace of the framework
    calls made. *)

From Stdlib Require Import ZArith QArith Lia Ascii DecimalString.
From stdpp Require Import gmap strings list fin_maps.

Local Open Scope Z_scope.

(** ** Value domains of the external components *)

Class Values := {
  scalar : Type;        (* a Python / framework float *)
  tensor : Type;        (* a parameter tensor, gradient included *)
  feature : Type;       (* one entry of the serialized array [x] *)
  window : Type;        (* one windowed input sample *)
  gen : Type;           (* the state of one pseudo-random generator *)
  loss_t : Type;        (* a loss tensor with its autograd graph *)
  optimizer_t : Type;
  scheduler_t : Type;
}.

Section Model.
Context {V : Values}.

(** A one-hot label row or a row of logits. *)
Local Abbreviation row := (list scalar).

(** A named parameter of the network. *)
Record param := { p_data : tensor; p_requires_grad : bool }.

Local Abbreviation module := (gmap string param).
Local Abbreviation state_dict := (gmap string tensor).

(** The four process-wide generators the script seeds. *)
Record rngs := {
  torch_cpu : gen; torch_cuda : gen; numpy_gen : gen; python_gen : gen }.

(** [args]: the parsed command line. *)
Record config := {
  pretrained_log_name : string;
  load_path : string;
  log_name : string;
  tune_mode : string;
  num_layers : Z;
  lr : scalar;
  window_size : Z;
  adapter_size : Z;
  epoch : Z;
}.

(** What the script writes to the result file and prints.  A record stands
    for the rendered text of one [write] or [print] call. *)
Inductive log_record :=
| RArgs (cfg : config)
| RLoadingModel (path : string)
| RLoadingResult (missing_keys unexpected_keys : list string)
| RProgress (epoch : Z) (batch_idx nb : nat)
    (cur_loss cur_f1 time_cost : scalar) (last_lr : list scalar)
| RProgressOut (epoch : Z) (batch_idx nb : nat)
    (cur_loss cur_f1 : scalar) (last_lr : list scalar)
| REpochLoss (epoch epochs : Z) (loss : scalar)
| RNumEpochs (epoch : Z)
| RNumTest (n : nat)
| RPrecision (p : scalar)
| RRecall (r : scalar)
| RF1 (f : scalar)
| RAllLoss (l : list scalar)
| RBlank.

(** File contents: a sequence of chunks.  A text file holds records; an
    [.npz] archive or a checkpoint is a single binary chunk. *)
Inductive chunk :=
| Rec (r : log_record)
| NpzBlob (x : list feature) (y : list row)
| CkptBlob (fields : gmap string state_dict).

Inductive exn :=
| KeyError (k : string)
| FileNotFoundError (p : string)
| UnpicklingError (p : string)
| RuntimeError
| ValueError
| ZeroDivisionError
| NameError (v : string)
| IndexError.

(** Calls into the framework, in the order they are made. *)
Inductive call :=
| CNpLoad (p : string)
| CTorchLoad (p : string)
| CLoadStateDict (keys : list string) (strict : bool)
| COneCycleLR (epochs : Z) (steps_per_epoch : nat)
| CSample (order : list nat)
| CForward (training : bool)
| CCriterion
| CZeroGrad
| CBackward
| CClipGradNorm (max_norm : Q)
| COptimizerStep
| CSchedulerStep.

Record world := {
  w_fs : gmap string (list chunk);
  w_dirs : gset string;         (* the directories that exist *)
  w_rng : rngs;
  w_clock : nat -> scalar;      (* successive readings of [time.time()] *)
  w_tick : nat;
  w_stdout : list log_record;
  w_calls : list call;
}.

(** ** The monad: world passing with exceptions *)

Inductive result (A : Type) :=
| Ok (a : A)
| Raise (e : exn).
#[global] Arguments Ok {A} a.
#[global] Arguments Raise {A} e.

Definition M (A : Type) : Type := world -> world * result A.

Definition ret {A} (a : A) : M A := fun w => (w, Ok a).
Definition raise {A} (e : exn) : M A := fun w => (w, Raise e).
Definition bind {A B} (m : M A) (f : A -> M B) : M B :=
  fun w => match m w with
           | (w', Ok a) => f a w'
           | (w', Raise e) => (w', Raise e)
           end.

Fixpoint for_each {A S} (body : A -> S -> M S) (l : list A) (s : S) : M S :=
  match l with
  | [] => ret s
  | a :: l' => bind (body a s) (for_each body l')
  end.

Fixpoint enumerate_from {A} (k : nat) (l : list A) : list (nat * A) :=
  match l with
  | [] => []
  | a :: l' => (k, a) :: enumerate_from (S k) l'
  end.

(** [enumerate(l)] *)
Definition enumerate {A} (l : list A) : list (nat * A) := enumerate_from 0 l.

(** [range(lo, hi)] *)
Definition range (lo hi : Z) : list Z :=
  map (fun i => lo + Z.of_nat i) (seq 0 (Z.to_nat (hi - lo))).

End Model.

Declare Scope script_scope.
Delimit Scope script_scope with script.
Notation "x <- m ;; k" := (bind m (fun x => k))
  (at level 100, m at next level, right associativity) : script_scope.
Notation "m ;; k" := (bind m (fun _ => k))
  (at level 100, right associativity) : script_scope.

Abbreviation row := (list scalar).
Abbreviation module := (gmap string param).
Abbreviation state_dict := (gmap string tensor).

(** ** The external components

    Everything the script calls but does not define: Python float
    arithmetic, the tensor framework, the metrics library, and the
    repository's own [Model] and [DataGenerator] classes, whose files are
    not part of the script.  They are opaque functions of their visible
    inputs; state they keep (parameters, generators) is passed explicitly. *)

Class External (V : Values) := {
  (* Python floats *)
  f_of_Z : Z -> scalar;
  f_add : scalar -> scalar -> scalar;
  f_sub : scalar -> scalar -> scalar;
  f_div : scalar -> scalar -> scalar;
  repr_float : scalar -> string;
  (* seeding: the generator state is a function of the seed alone *)
  torch_seed : Z -> gen;
  cuda_seed : Z -> gen;
  numpy_seed : Z -> gen;
  python_seed : Z -> gen;
  (* dataloader.DataGenerator(x, y, window_size), as the sequence it indexes *)
  DataGenerator : list feature -> list row -> Z -> list (window * row);
  (* the base seed every DataLoader iterator draws when it is created,
     whether or not the loader shuffles *)
  base_seed : rngs -> Z * rngs;
  (* the sampler of DataLoader(shuffle=True) *)
  randperm : nat -> rngs -> list nat * rngs;
  randperm_perm : forall n r, (randperm n r).1 ≡ₚ seq 0 n;
  (* model.Model(mode, num_layers, adapter_size, dim, window_size, nhead,
     dim_feedforward, dropout) *)
  Model : string -> Z -> Z -> Z -> Z -> Z -> Z -> Q -> rngs -> module * rngs;
  train_adapter : module -> module;
  train_classifier : module -> module;
  shape : tensor -> list nat;
  (* model(x) in training mode (dropout draws random numbers) and in
     evaluation mode *)
  forward_train : module -> list window -> rngs -> list row * rngs;
  forward_eval : module -> list window -> list row;
  forward_eval_rows : forall m xs, length (forward_eval m xs) = length xs;
  argmax : row -> nat;
  (* nn.BCEWithLogitsLoss()(out, y), loss.item() *)
  bce_with_logits : list row -> list row -> loss_t;
  loss_item : loss_t -> scalar;
  (* optimizer and scheduler *)
  adam : module -> scalar -> Z -> optimizer_t;
  one_cycle_lr : optimizer_t -> scalar -> Z -> nat -> option (scheduler_t * optimizer_t);
  zero_grad : optimizer_t -> module -> module;
  backward : loss_t -> module -> module;
  clip_grad_norm : Q -> module -> module;
  optimizer_step : optimizer_t -> module -> optimizer_t * module;
  scheduler_step : scheduler_t -> optimizer_t -> scheduler_t * optimizer_t;
  get_last_lr : scheduler_t -> list scalar;
  (* sklearn.metrics; [None] when the call raises *)
  f1_score : list nat -> list nat -> option scalar;
  precision_recall_fscore_support :
    list nat -> list nat -> option (scalar * scalar * scalar);
}.

(** ** The script *)

Section Script.
Context {V : Values} {E : External V}.
Local Open Scope script_scope.

(** *** World primitives *)

Definition with_fs (f : gmap string (list chunk) -> gmap string (list chunk))
    (w : world) : world :=
  {| w_fs := f (w_fs w); w_dirs := w_dirs w; w_rng := w_rng w;
     w_clock := w_clock w; w_tick := w_tick w; w_stdout := w_stdout w; w_calls := w_calls w |}.

Definition with_rng (r : rngs) (w : world) : world :=
  {| w_fs := w_fs w; w_dirs := w_dirs w; w_rng := r;
     w_clock := w_clock w; w_tick := w_tick w; w_stdout := w_stdout w; w_calls := w_calls w |}.

Definition add_call (c : call) (w : world) : world :=
  {| w_fs := w_fs w; w_dirs := w_dirs w; w_rng := w_rng w;
     w_clock := w_clock w; w_tick := w_tick w; w_stdout := w_stdout w; w_calls := w_calls w ++ [c] |}.

(** A framework call with result [a], recorded in the trace. *)
Definition called {A} (c : call) (a : A) : M A := fun w => (add_call c w, Ok a).

(** [print(...)] *)
Definition print (r : log_record) : M unit := fun w =>
  ({| w_fs := w_fs w; w_dirs := w_dirs w; w_rng := w_rng w;
      w_clock := w_clock w; w_tick := w_tick w; w_stdout := w_stdout w ++ [r]; w_calls := w_calls w |},
   Ok tt).

(** [time.time()] *)
Definition time_time : M scalar := fun w =>
  ({| w_fs := w_fs w; w_dirs := w_dirs w; w_rng := w_rng w;
      w_clock := w_clock w; w_tick := S (w_tick w); w_stdout := w_stdout w; w_calls := w_calls w |},
   Ok (w_clock w (w_tick w))).

Inductive open_mode := ModeW | ModeA.

(** What is in a file when [open(p, mode)] returns: mode ['w'] truncates,
    mode ['a'] keeps what is there (nothing, for a new file). *)
Definition opened (mode : open_mode) (old : option (list chunk)) : list chunk :=
  match mode with
  | ModeW => []
  | ModeA => default [] old
  end.

(** The directory part of a path: what precedes its last ["/"]; [None]
    for a bare file name, which lies in the working directory. *)
Fixpoint dirname (p : string) : option string :=
  match p with
  | EmptyString => None
  | String c rest =>
      match dirname rest with
      | Some d => Some (String c d)
      | None => if Ascii.eqb c "/"%char then Some EmptyString else None
      end
  end.

(** Whether the directory a path lies in exists.  [open] creates a file,
    never a directory, and the script creates none either. *)
Definition parent_exists (dirs : gset string) (p : string) : bool :=
  match dirname p with
  | Some d => bool_decide (d ∈ dirs)
  | None => true
  end.

(** [with open(p, mode) as f: f.write(r1); ...; f.write(rn)].  In either
    mode the open raises [FileNotFoundError] when the directory of [p]
    does not exist, and then nothing is written. *)
Definition write_file (p : string) (mode : open_mode) (recs : list log_record)
    : M unit := fun w =>
  if parent_exists (w_dirs w) p
  then (with_fs (fun fs => <[p := opened mode (fs !! p) ++ map Rec recs]> fs) w,
        Ok tt)
  else (w, Raise (FileNotFoundError p)).

(** [d = np.load(p, allow_pickle=True); d['x'], d['y']] *)
Definition np_load (p : string) : M (list feature * list row) := fun w =>
  let w' := add_call (CNpLoad p) w in
  match w_fs w !! p with
  | Some [NpzBlob x y] => (w', Ok (x, y))
  | Some _ => (w', Raise (UnpicklingError p))
  | None => (w', Raise (FileNotFoundError p))
  end.

(** [torch.load(p)] *)
Definition torch_load (p : string) : M (gmap string state_dict) := fun w =>
  let w' := add_call (CTorchLoad p) w in
  match w_fs w !! p with
  | Some [CkptBlob c] => (w', Ok c)
  | Some _ => (w', Raise (UnpicklingError p))
  | None => (w', Raise (FileNotFoundError p))
  end.

(** [d[k]] and [d.pop(k)] on a Python dict: both raise [KeyError] when the
    key is absent. *)
Definition dict_get {A} (k : string) (d : gmap string A) : M A :=
  match d !! k with
  | Some a => ret a
  | None => raise (KeyError k)
  end.

Definition dict_pop {A} (k : string) (d : gmap string A) : M (gmap string A) :=
  match d !! k with
  | Some _ => ret (delete k d)
  | None => raise (KeyError k)
  end.

(** [x / n] with an integer divisor. *)
Definition py_div (x : scalar) (n : Z) : M scalar :=
  if n =? 0 then raise ZeroDivisionError else ret (f_div x (f_of_Z n)).

(** [sum(l)]: left to right, starting from the integer 0. *)
Definition py_sum (l : list scalar) : scalar := fold_left f_add l (f_of_Z 0).

Definition sk_f1_score (y_true y_pred : list nat) : M scalar :=
  match f1_score y_true y_pred with
  | Some f => ret f
  | None => raise ValueError
  end.

Definition sk_precision_recall_fscore_support (y_true y_pred : list nat)
    : M (scalar * scalar * scalar) :=
  match precision_recall_fscore_support y_true y_pred with
  | Some r => ret r
  | None => raise ValueError
  end.

(** *** Result file *)

Definition str_int (z : Z) : string := NilZero.string_of_int (Z.to_int z).

Definition suffix (cfg : config) : string :=
  log_name cfg +:+ "_from_" +:+ pretrained_log_name cfg +:+ "_" +:+
  tune_mode cfg +:+ "_" +:+ str_int (num_layers cfg) +:+ "_" +:+
  str_int (adapter_size cfg) +:+ "_" +:+ repr_float (lr cfg) +:+ "_" +:+
  str_int (epoch cfg).

Definition result_path (cfg : config) : string :=
  "result/tune_" +:+ suffix cfg +:+ ".txt".

Definition training_path (cfg : config) : string :=
  "./preprocessed_data/" +:+ log_name cfg +:+ "_training_data.npz".

Definition testing_path (cfg : config) : string :=
  "./preprocessed_data/" +:+ log_name cfg +:+ "_testing_data.npz".

(** *** Hyper-parameters and seeding *)

Definition EMBEDDING_DIM : Z := 768.
Definition batch_size : nat := 64.
Definition log_interval : nat := 100.
Definition start_epoch : Z := -1.

(** [torch.manual_seed] seeds the generators of all devices. *)
Definition torch_manual_seed (s : Z) : M unit := fun w =>
  (with_rng {| torch_cpu := torch_seed s; torch_cuda := cuda_seed s;
               numpy_gen := numpy_gen (w_rng w);
               python_gen := python_gen (w_rng w) |} w, Ok tt).

Definition torch_cuda_manual_seed (s : Z) : M unit := fun w =>
  (with_rng {| torch_cpu := torch_cpu (w_rng w); torch_cuda := cuda_seed s;
               numpy_gen := numpy_gen (w_rng w);
               python_gen := python_gen (w_rng w) |} w, Ok tt).

Definition np_random_seed (s : Z) : M unit := fun w =>
  (with_rng {| torch_cpu := torch_cpu (w_rng w);
               torch_cuda := torch_cuda (w_rng w);
               numpy_gen := numpy_seed s;
               python_gen := python_gen (w_rng w) |} w, Ok tt).

Definition random_seed (s : Z) : M unit := fun w =>
  (with_rng {| torch_cpu := torch_cpu (w_rng w);
               torch_cuda := torch_cuda (w_rng w);
               numpy_gen := numpy_gen (w_rng w);
               python_gen := python_seed s |} w, Ok tt).

(** "fix all random seeds" *)
Definition fix_all_random_seeds : M unit :=
  torch_manual_seed 123 ;;
  torch_cuda_manual_seed 123 ;;
  np_random_seed 123 ;;
  random_seed 123.

(** *** Data loaders *)

Fixpoint chunks_fuel {A} (fuel n : nat) (l : list A) : list (list A) :=
  match fuel with
  | O => []
  | S fuel' =>
      match l with
      | [] => []
      | _ => take n l :: chunks_fuel fuel' n (drop n l)
      end
  end.

(** Consecutive batches of [n] elements, the last one possibly shorter. *)
Definition chunks {A} (n : nat) (l : list A) : list (list A) :=
  chunks_fuel (length l) n l.

(** [len(DataLoader(ds, batch_size=64))] *)
Definition loader_len (n : nat) : nat := ((n + batch_size - 1) / batch_size)%nat.

Definition collate (b : list (window * row)) : list window * list row :=
  (map fst b, map snd b).

(** Creating the iterator of a loader draws its base seed from the
    generators, with either kind of sampler. *)
Definition draw_base_seed : M Z := fun w =>
  let sr := base_seed (w_rng w) in (with_rng sr.2 w, Ok sr.1).

(** The index order of one pass: a fresh permutation from the random
    sampler of a shuffling loader, [0, 1, ..., n-1] from the sequential
    sampler otherwise.  The sequential sampler draws nothing itself; the
    draw every pass makes is that of [draw_base_seed]. *)
Definition sampler (shuffle : bool) (n : nat) : M (list nat) :=
  if shuffle then
    fun w => let '(order, r) := randperm n (w_rng w) in
             (add_call (CSample order) (with_rng r w), Ok order)
  else ret (seq 0 n).

(** [iter(DataLoader(ds, batch_size=64, shuffle=shuffle))], run to the
    end: the base seed is drawn, then the sampler gives the order. *)
Definition iter_loader (shuffle : bool) (ds : list (window * row))
    : M (list (list window * list row)) :=
  draw_base_seed ;;
  order <- sampler shuffle (length ds) ;;
  match mapM (fun i => ds !! i) order with
  | Some samples => ret (map collate (chunks batch_size samples))
  | None => raise IndexError
  end.

(** *** Model set-up *)

Definition create_model (cfg : config) : M module := fun w =>
  let '(m, r) := Model "adapter" (num_layers cfg) (adapter_size cfg)
                   EMBEDDING_DIM (window_size cfg) 8 (4 * EMBEDDING_DIM)
                   (1 # 10)%Q (w_rng w) in
  (with_rng r w, Ok m).

Definition enable_grad (p : param) : param :=
  {| p_data := p_data p; p_requires_grad := true |}.

(** "fine tuning setting" *)
Definition tune_mode_dispatch (mode : string) (model : module) : module :=
  if String.eqb mode "adapter" then train_adapter model
  else if String.eqb mode "classifier" then train_classifier model
  else if String.eqb mode "tuning" then enable_grad <$> model
  else model.

(** [torch.nn.DataParallel(model)]: the wrapped network is the submodule
    [module], so every state-dict key gains that prefix. *)
Definition data_parallel (model : module) : module :=
  kmap (String.append "module.") model.

(** *** Checkpoint loading *)

Definition shape_ok (net : state_dict) (kp : string * param) : bool :=
  match net !! kp.1 with
  | Some t => bool_decide (shape t = shape (p_data kp.2))
  | None => true
  end.

Definition load_param (net : state_dict) (k : string) (p : param) : option param :=
  Some match net !! k with
       | Some t => {| p_data := t; p_requires_grad := p_requires_grad p |}
       | None => p
       end.

Definition missing_keys (net : state_dict) (model : module) : list string :=
  elements (dom model ∖ dom net).

Definition unexpected_keys (net : state_dict) (model : module) : list string :=
  elements (dom net ∖ dom model).

(** [model.load_state_dict(net, strict)]: copies every entry of [net] whose
    key the model has, and reports the keys only one side has.  A size
    mismatch on a common key raises also when [strict] is off. *)
Definition load_state_dict (net : state_dict) (strict : bool) (model : module)
    : M (module * (list string * list string)) :=
  called (CLoadStateDict (elements (dom net)) strict) tt ;;
  let r := (missing_keys net model, unexpected_keys net model) in
  if negb (forallb (shape_ok net) (map_to_list model)) then raise RuntimeError
  else if strict && negb (bool_decide (r = ([], []))) then raise RuntimeError
  else ret (map_imap (load_param net) model, r).

Definition load_pretrained (cfg : config) (model : module) : M module :=
  if negb (String.eqb (pretrained_log_name cfg) "random") then
    checkpoint <- torch_load (load_path cfg) ;;
    net <- dict_get "net" checkpoint ;;
    net <- dict_pop "module.fc1.weight" net ;;
    net <- dict_pop "module.fc1.bias" net ;;
    mr <- load_state_dict net false model ;;
    write_file (result_path cfg) ModeA
      [RLoadingModel (load_path cfg); RLoadingResult mr.2.1 mr.2.2] ;;
    ret mr.1
  else ret model.

(** *** Training *)

Record learner := {
  net : module;
  optimizer : optimizer_t;
  scheduler : scheduler_t;
}.

(** The accumulators of one epoch. *)
Record acc := {
  loss_all : list scalar;
  f1_all : list scalar;
  train_loss : scalar;
  train_pred : list nat;
  train_true : list nat;
  start_time : scalar;
}.

(** [optim.lr_scheduler.OneCycleLR(optimizer, max_lr, epochs, steps_per_epoch)] *)
Definition OneCycleLR (o : optimizer_t) (max_lr : scalar) (epochs : Z)
    (steps_per_epoch : nat) : M (scheduler_t * optimizer_t) :=
  called (COneCycleLR epochs steps_per_epoch) tt ;;
  match one_cycle_lr o max_lr epochs steps_per_epoch with
  | Some so => ret so
  | None => raise ValueError
  end.

(** [model(x)] in training mode. *)
Definition model_call (m : module) (x : list window) : M (list row) := fun w =>
  let '(out, r) := forward_train m x (w_rng w) in
  (add_call (CForward true) (with_rng r w), Ok out).

(** Lines 122-129: one optimisation step on a batch. *)
Definition train_step (l : learner) (x : list window) (y : list row)
    : M (learner * list row * loss_t) :=
  out <- model_call (net l) x ;;
  loss <- called CCriterion (bce_with_logits out y) ;;
  m1 <- called CZeroGrad (zero_grad (optimizer l) (net l)) ;;
  m2 <- called CBackward (backward loss m1) ;;
  m3 <- called (CClipGradNorm (1 # 2)%Q) (clip_grad_norm (1 # 2)%Q m2) ;;
  om <- called COptimizerStep (optimizer_step (optimizer l) m3) ;;
  so <- called CSchedulerStep (scheduler_step (scheduler l) om.1) ;;
  ret ({| net := om.2; optimizer := so.2; scheduler := so.1 |}, out, loss).

(** Lines 135-156: the progress report of a logging interval. *)
Definition log_block (cfg : config) (epoch : Z) (nb batch_idx : nat)
    (l : learner) (a : acc) : M acc :=
  now <- time_time ;;
  let time_cost := f_sub now (start_time a) in
  cur_loss <- py_div (train_loss a) (Z.of_nat log_interval) ;;
  cur_f1 <- sk_f1_score (train_true a) (train_pred a) ;;
  write_file (result_path cfg) ModeA
    [RProgress epoch batch_idx nb cur_loss cur_f1 time_cost
       (get_last_lr (scheduler l))] ;;
  print (RProgressOut epoch batch_idx nb cur_loss cur_f1
           (get_last_lr (scheduler l))) ;;
  start <- time_time ;;
  ret {| loss_all := loss_all a ++ [train_loss a];
         f1_all := f1_all a ++ [cur_f1];
         train_loss := f_of_Z 0;
         train_pred := train_pred a;
         train_true := train_true a;
         start_time := start |}.

(** Line 135: [batch_idx % log_interval == 0 and batch_idx > 0]. *)
Definition at_interval (batch_idx : nat) : bool :=
  (batch_idx mod log_interval =? 0)%nat && (0 <? batch_idx)%nat.

(** Lines 119-156: the body of the batch loop. *)
Definition train_batch (cfg : config) (epoch : Z) (nb : nat)
    (item : nat * (list window * list row)) (st : learner * acc)
    : M (learner * acc) :=
  let batch_idx := item.1 in
  r <- train_step st.1 item.2.1 item.2.2 ;;
  let a := {| loss_all := loss_all st.2;
              f1_all := f1_all st.2;
              train_loss := f_add (train_loss st.2) (loss_item r.2);
              train_pred := train_pred st.2 ++ map argmax r.1.2;
              train_true := train_true st.2 ++ map argmax item.2.2;
              start_time := start_time st.2 |} in
  if at_interval batch_idx then
    a' <- log_block cfg epoch nb batch_idx r.1.1 a ;;
    ret (r.1.1, a')
  else ret (r.1.1, a).

(** Lines 112-114: the accumulators at the start of an epoch. *)
Definition fresh_acc (start : scalar) : acc :=
  {| loss_all := []; f1_all := []; train_loss := f_of_Z 0;
     train_pred := []; train_true := []; start_time := start |}.

(** Lines 112-159: the training half of an epoch. *)
Definition train_epoch (cfg : config) (train_ds : list (window * row))
    (epochs epoch : Z) (l : learner) : M (learner * acc) :=
  let nb := loader_len (length train_ds) in
  start <- time_time ;;
  batches <- iter_loader true train_ds ;;
  la <- for_each (train_batch cfg epoch nb) (enumerate batches)
          (l, fresh_acc start) ;;
  epoch_loss <- py_div (py_sum (loss_all la.2)) (Z.of_nat nb) ;;
  print (REpochLoss epoch epochs epoch_loss) ;;
  ret la.

(** *** Evaluation *)

(** Lines 165-174: the body of the test loop.  The buffers [y_pred] and
    [y_true] are unbound until the first batch assigns them; what an
    earlier epoch left in them is overwritten by that first batch, so each
    pass starts from [None]. *)
Definition eval_batch (m : module) (item : nat * (list window * list row))
    (buf : option (list row * list row)) : M (option (list row * list row)) :=
  out <- called (CForward false) (forward_eval m item.2.1) ;;
  if (item.1 =? 0)%nat then ret (Some (out, item.2.2))
  else match buf with
       | Some (y_pred, y_true) => ret (Some (y_pred ++ out, y_true ++ item.2.2))
       | None => raise (NameError "y_pred")
       end.

(** Lines 163-174: the buffers after one pass over the test loader. *)
Definition eval_loop (m : module) (test_ds : list (window * row))
    : M (list row * list row) :=
  batches <- iter_loader false test_ds ;;
  buf <- for_each (eval_batch m) (enumerate batches) None ;;
  match buf with
  | Some b => ret b
  | None => raise (NameError "y_true")
  end.

(** Lines 161-193: the evaluation half of an epoch. *)
Definition eval_epoch (cfg : config) (test_ds : list (window * row))
    (n_test : nat) (epoch : Z) (m : module) (a : acc) : M unit :=
  b <- eval_loop m test_ds ;;
  let y_true := map argmax b.2 in
  let y_pred := map argmax b.1 in
  report <- sk_precision_recall_fscore_support y_true y_pred ;;
  write_file (result_path cfg) ModeA
    [RNumEpochs epoch; RNumTest n_test; RPrecision report.1.1;
     RRecall report.1.2; RF1 report.2; RAllLoss (loss_all a); RBlank] ;;
  print (RNumTest n_test) ;;
  print (RPrecision report.1.1) ;;
  print (RRecall report.1.2) ;;
  print (RF1 report.2).

Definition run_epoch (cfg : config) (train_ds test_ds : list (window * row))
    (n_test : nat) (epochs epoch : Z) (l : learner) : M learner :=
  la <- train_epoch cfg train_ds epochs epoch l ;;
  eval_epoch cfg test_ds n_test epoch (net la.1) la.2 ;;
  ret la.1.

(** *** The whole script *)

(** Everything after the result file has been opened for the first time
    (line 42 to the end). *)
Definition script_body (cfg : config) : M unit :=
  let epochs := epoch cfg in
  fix_all_random_seeds ;;
  training_data <- np_load (training_path cfg) ;;
  testing_data <- np_load (testing_path cfg) ;;
  let train_generator :=
    DataGenerator training_data.1 training_data.2 (window_size cfg) in
  let test_generator :=
    DataGenerator testing_data.1 testing_data.2 (window_size cfg) in
  model <- create_model cfg ;;
  let model := tune_mode_dispatch (tune_mode cfg) model in
  let model := data_parallel model in
  model <- load_pretrained cfg model ;;
  let opt := adam model (lr cfg) 0 in
  so <- OneCycleLR opt (lr cfg) epochs (loader_len (length train_generator)) ;;
  for_each
    (run_epoch cfg train_generator test_generator (length testing_data.1) epochs)
    (range (start_epoch + 1) epochs)
    {| net := model; optimizer := so.2; scheduler := so.1 |} ;;
  ret tt.

Definition main (cfg : config) : M unit :=
  write_file (result_path cfg) ModeW [RArgs cfg] ;;
  script_body cfg.

(** The world a process starts in. *)
Definition boot (fs : gmap string (list chunk)) (dirs : gset string)
    (r : rngs) (clock : nat -> scalar) : world :=
  {| w_fs := fs; w_dirs := dirs; w_rng := r; w_clock := clock; w_tick := O;
     w_stdout := []; w_calls := [] |}.

(** *** Vocabulary of the statements *)

Definition head_weight : string := "module.fc1.weight".
Definition head_bias : string := "module.fc1.bias".

(** The checkpoint mapping once the two head entries are popped. *)
Definition without_head (net : state_dict) : state_dict :=
  delete head_bias (delete head_weight net).

(** The world after a successful load: the two framework calls are in the
    trace and the two report lines are appended to the result file. *)
Definition loaded_world (cfg : config) (net : state_dict) (model : module)
    (w : world) : world :=
  with_fs (fun fs => <[result_path cfg :=
      default [] (fs !! result_path cfg) ++
      [Rec (RLoadingModel (load_path cfg));
       Rec (RLoadingResult (missing_keys (without_head net) model)
              (unexpected_keys (without_head net) model))]]> fs)
    (add_call (CLoadStateDict (elements (dom (without_head net))) false)
       (add_call (CTorchLoad (load_path cfg)) w)).

(** The per-interval accumulated losses, given the value of [loss.item()]
    on each batch from batch [idx] on and the running loss so far. *)
Fixpoint interval_sums (idx : nat) (cur : scalar) (items : list scalar)
    : list scalar :=
  match items with
  | [] => []
  | x :: rest =>
      if at_interval idx
      then f_add cur x :: interval_sums (S idx) (f_of_Z 0) rest
      else interval_sums (S idx) (f_add cur x) rest
  end.

(** The losses that make up the [j]-th logging interval of an epoch, given
    the value of [loss.item()] on every batch: batches 0 to 100 for the
    first interval, which is reported at batch index 100, and the next 100
    batches for each later one. *)
Definition interval_items (j : nat) (items : list scalar) : list scalar :=
  match j with
  | O => take 101 items
  | S _ => take 100 (drop (100 * j + 1) items)
  end.

(** The number of logging intervals an epoch of [nb] batches completes:
    one at each batch index 100, 200, ... below [nb]. *)
Definition intervals (nb : nat) : nat := ((nb - 1) / 100)%nat.

(** *** The optimisation as the specification words it

    "forward pass, binary cross-entropy-with-logits loss, zero gradients,
    backpropagate, clip gradient norm to 0.5, optimizer step, scheduler
    step": one step as a function of the learner, the batch and the
    generators, each operation applied to the outcome of the one before. *)
Record step_result := {
  sr_learner : learner;     (* network, optimizer and scheduler afterwards *)
  sr_out : list row;        (* the logits of the forward pass *)
  sr_loss : loss_t;
  sr_rng : rngs;            (* the generators afterwards *)
}.

Definition spec_step (l : learner) (x : list window) (y : list row) (r : rngs)
    : step_result :=
  let fw := forward_train (net l) x r in
  let loss := bce_with_logits fw.1 y in
  let zeroed := zero_grad (optimizer l) (net l) in
  let grads := backward loss zeroed in
  let clipped := clip_grad_norm (1 # 2)%Q grads in
  let om := optimizer_step (optimizer l) clipped in
  let so := scheduler_step (scheduler l) om.1 in
  {| sr_learner := {| net := om.2; optimizer := so.2; scheduler := so.1 |};
     sr_out := fw.1; sr_loss := loss; sr_rng := fw.2 |}.

(** The steps of one pass over the batches, each starting from the learner
    and the generators the one before left. *)
Fixpoint spec_steps (batches : list (list window * list row)) (l : learner)
    (r : rngs) : list step_result :=
  match batches with
  | [] => []
  | b :: bs =>
      let s := spec_step l b.1 b.2 r in
      s :: spec_steps bs (sr_learner s) (sr_rng s)
  end.

(** The learner and the generators after those steps. *)
Definition spec_train (batches : list (list window * list row))
    (st : learner * rngs) : learner * rngs :=
  fold_left (fun st b => let s := spec_step st.1 b.1 b.2 st.2 in
                         (sr_learner s, sr_rng s)) batches st.

(** [loss.item()] on each batch of the pass. *)
Definition spec_losses (batches : list (list window * list row)) (l : learner)
    (r : rngs) : list scalar :=
  map (fun s => loss_item (sr_loss s)) (spec_steps batches l r).

(** The batches of one pass of the shuffling loader over [ds]. *)
Definition spec_batches (ds : list (window * row)) (r : rngs)
    : list (list window * list row) * rngs :=
  let drawn := (base_seed r).2 in
  let pr := randperm (length ds) drawn in
  (map collate (chunks batch_size (omap (fun i => ds !! i) pr.1)), pr.2).

(** One epoch: a pass of steps over the shuffled batches; the evaluation
    that follows changes nothing of the learner and draws the base seed of
    the test loader's iterator. *)
Definition spec_epoch (train_ds : list (window * row)) (st : learner * rngs)
    : learner * rngs :=
  let br := spec_batches train_ds st.2 in
  let trained := spec_train br.1 (st.1, br.2) in
  (trained.1, (base_seed trained.2).2).

Fixpoint spec_epochs (n : nat) (train_ds : list (window * row))
    (st : learner * rngs) : learner * rngs :=
  match n with
  | O => st
  | S n' => spec_epochs n' train_ds (spec_epoch train_ds st)
  end.

Definition is_scheduler_step (c : call) : bool :=
  match c with
  | CSchedulerStep => true
  | _ => false
  end.

(** The number of [scheduler.step()] calls in a trace. *)
Definition scheduler_steps (cs : list call) : nat :=
  length (List.filter is_scheduler_step cs).

Definition add_calls (cs : list call) (w : world) : world :=
  {| w_fs := w_fs w; w_dirs := w_dirs w; w_rng := w_rng w;
     w_clock := w_clock w; w_tick := w_tick w; w_stdout := w_stdout w; w_calls := w_calls w ++ cs |}.

(** The batches of indices the shuffling sampler produced, pass by pass. *)
Fixpoint batch_orders (cs : list call) : list (list (list nat)) :=
  match cs with
  | [] => []
  | CSample order :: cs' => chunks batch_size order :: batch_orders cs'
  | _ :: cs' => batch_orders cs'
  end.

(** The rows the model produces for a data set taken batch by batch in
    its own order. *)
Definition eval_predictions (m : module) (ds : list (window * row)) : list row :=
  concat (map (fun b => forward_eval m (map fst b)) (chunks batch_size ds)).

(** What a file holds; a file that does not exist holds nothing. *)
Definition content (fs : gmap string (list chunk)) (p : string) : list chunk :=
  default [] (fs !! p).

(** The calls that make up an optimisation step. *)
Definition is_step_call (c : call) : bool :=
  match c with
  | CForward true | CCriterion | CZeroGrad | CBackward | CClipGradNorm _
  | COptimizerStep | CSchedulerStep => true
  | _ => false
  end.

Definition step_calls (cs : list call) : list call := List.filter is_step_call cs.

Definition step_pattern : list call :=
  [CForward true; CCriterion; CZeroGrad; CBackward; CClipGradNorm (1 # 2)%Q;
   COptimizerStep; CSchedulerStep].

Definition whole_steps (k : nat) : list call := concat (replicate k step_pattern).

(** [stays T p w w']: from [w] to [w'] the file system changed only by
    records appended to the file [p], the trace of calls only grew, the
    optimisation calls among those added satisfy [T], and no directory was
    created or removed. *)
Record stays (T : list call -> Prop) (p : string) (w w' : world) : Prop := {
  stays_others : forall q, q <> p -> w_fs w' !! q = w_fs w !! q;
  stays_appended : exists l, content (w_fs w') p = content (w_fs w) p ++ map Rec l;
  stays_trace : exists cs,
    w_calls w' = w_calls w ++ cs /\ T (step_calls cs);
  stays_dirs : w_dirs w' = w_dirs w;
}.

(** What [T] must allow for [stays T p] to compose: nothing added, and one
    addition after another. *)
Class Steps (T : list call -> Prop) : Prop := {
  steps_nil : T [];
  steps_app : forall cs ds, T cs -> T ds -> T (cs ++ ds);
}.

(** The two shapes of added optimisation calls: none, or whole steps. *)
Definition no_steps (cs : list call) : Prop := cs = [].
Definition only_whole_steps (cs : list call) : Prop := exists k, cs = whole_steps k.

Definition preserves (R : world -> world -> Prop) {A} (m : M A) : Prop :=
  forall w, R w (m w).1.

(** The generators once the seeding block has run. *)
Definition seeded : rngs :=
  {| torch_cpu := torch_seed 123; torch_cuda := cuda_seed 123;
     numpy_gen := numpy_seed 123; python_gen := python_seed 123 |}.

(** *** Two runs side by side

    [low_eq p w1 w2]: the two worlds agree on everything that can reach
    the sampler: the generators, the trace so far, the directories, and
    every file but [p], which in both is a text file that has been written
    to.  The clock, the console and the contents of [p] are free to
    differ. *)
Definition is_text (o : option (list chunk)) : Prop :=
  exists r l, o = Some (Rec r :: l).

Record low_eq (p : string) (w1 w2 : world) : Prop := {
  low_rng : w_rng w1 = w_rng w2;
  low_calls : w_calls w1 = w_calls w2;
  low_files : forall q, q <> p -> w_fs w1 !! q = w_fs w2 !! q;
  low_text1 : is_text (w_fs w1 !! p);
  low_text2 : is_text (w_fs w2 !! p);
  low_dirs : w_dirs w1 = w_dirs w2;
}.

Definition rel_result {A} (RA : A -> A -> Prop) (r1 r2 : result A) : Prop :=
  match r1, r2 with
  | Ok a1, Ok a2 => RA a1 a2
  | Raise e1, Raise e2 => e1 = e2
  | _, _ => False
  end.

(** Two computations that keep related worlds related and end alike. *)
Definition rel (p : string) {A} (RA : A -> A -> Prop) (m1 m2 : M A) : Prop :=
  forall w1 w2, low_eq p w1 w2 ->
    low_eq p (m1 w1).1 (m2 w2).1 /\ rel_result RA (m1 w1).2 (m2 w2).2.

(** Accumulators that agree except for the time stamp. *)
Definition acc_sim (a1 a2 : acc) : Prop :=
  loss_all a1 = loss_all a2 /\ f1_all a1 = f1_all a2 /\
  train_loss a1 = train_loss a2 /\ train_pred a1 = train_pred a2 /\
  train_true a1 = train_true a2.

Definition state_sim (s1 s2 : learner * acc) : Prop :=
  s1.1 = s2.1 /\ acc_sim s1.2 s2.2.

(** The epoch numbers that head the metrics blocks of a result file, in the
    order they appear ("number of epochs:", line 181). *)
Definition epoch_marks (l : list chunk) : list Z :=
  flat_map (fun c => match c with
                     | Rec (RNumEpochs e) => [e]
                     | _ => []
                     end) l.

(** From [w] to [w'] no metrics block was added to the file [p]. *)
Definition same_marks (p : string) (w w' : world) : Prop :=
  epoch_marks (content (w_fs w') p) = epoch_marks (content (w_fs w) p).

(** The calls that read or apply a checkpoint, as they appear in a trace. *)
Definition is_load_call (c : call) : bool :=
  match c with
  | CTorchLoad _ | CLoadStateDict _ _ => true
  | _ => false
  end.

Definition load_calls (w : world) : list call :=
  List.filter is_load_call (w_calls w).

(** [unchanged obs w w']: the observation [obs] is the same in [w'] as in [w]. *)
Definition unchanged {X} (obs : world -> X) (w w' : world) : Prop :=
  obs w' = obs w.

End Script.

(** ** A concrete instance of the external components

    Small integer-valued stand-ins, used to run the script on concrete
    inputs. *)

Module Demo.

#[export] Instance values : Values := {|
  scalar := Z;
  tensor := list nat * Z;
  feature := Z;
  window := Z;
  gen := Z;
  loss_t := Z;
  optimizer_t := nat;
  scheduler_t := nat;
|}.

Definition mk (sh : list nat) (v : Z) (g : bool) : param :=
  {| p_data := (sh, v); p_requires_grad := g |}.

Definition fresh_model : module :=
  {[ "encoder.weight" := mk [4; 4]%nat 1 true;
     "adapter.weight" := mk [4; 2]%nat 2 true;
     "fc1.weight" := mk [2; 4]%nat 3 true;
     "fc1.bias" := mk [2]%nat 4 true ]}.

Definition only (pre : list string) (m : module) : module :=
  map_imap (fun k p => Some {| p_data := p_data p;
    p_requires_grad := existsb (fun s => String.prefix s k) pre |}) m.

Definition bump (r : rngs) : rngs :=
  {| torch_cpu := torch_cpu r + 1; torch_cuda := torch_cuda r;
     numpy_gen := numpy_gen r; python_gen := python_gen r |}.

Fixpoint argmax_from (i best : nat) (top : Z) (l : list Z) : nat :=
  match l with
  | [] => best
  | x :: l' => if top <? x then argmax_from (S i) i x l'
               else argmax_from (S i) best top l'
  end.

Definition argmax_row (l : list Z) : nat :=
  match l with
  | [] => O
  | x :: l' => argmax_from 1%nat 0%nat x l'
  end.

Definition logits (x : Z) : list Z := [1 - x; x].

#[export] Instance external : External values := {|
  f_of_Z := fun z => z;
  f_add := Z.add;
  f_sub := Z.sub;
  f_div := Z.div;
  repr_float := fun z => NilZero.string_of_int (Z.to_int z);
  torch_seed := fun s => s;
  cuda_seed := fun s => s + 1;
  numpy_seed := fun s => s + 2;
  python_seed := fun s => s + 3;
  DataGenerator := fun x y _ => zip x y;
  base_seed := fun r => (torch_cpu r, bump r);
  randperm := fun n r => (rev (seq 0 n), bump r);
  randperm_perm := fun n r => Permutation_sym (Permutation_rev (seq 0 n));
  Model := fun _ _ _ _ _ _ _ _ r => (fresh_model, bump r);
  train_adapter := only ["adapter"; "fc1"];
  train_classifier := only ["fc1"];
  shape := fun t => t.1;
  forward_train := fun _ xs r => (map logits xs, bump r);
  forward_eval := fun _ xs => map logits xs;
  forward_eval_rows := fun _ xs => length_map logits xs;
  argmax := argmax_row;
  bce_with_logits := fun out _ => Z.of_nat (length out);
  loss_item := fun l => l;
  adam := fun _ _ _ => O;
  one_cycle_lr := fun o _ _ _ => Some (O, o);
  zero_grad := fun _ m => m;
  backward := fun _ m => m;
  clip_grad_norm := fun _ m => m;
  optimizer_step := fun o m => (S o, m);
  scheduler_step := fun s o => (S s, o);
  get_last_lr := fun s => [Z.of_nat s];
  f1_score := fun _ _ => Some 1;
  precision_recall_fscore_support := fun _ _ => Some (1, 1, 1);
|}.

Definition cfg : config :=
  {| pretrained_log_name := "BGL_2k";
     load_path := "checkpoints/best.pt";
     log_name := "HDFS";
     tune_mode := "adapter";
     num_layers := 1;
     lr := 1;
     window_size := 20;
     adapter_size := 64;
     epoch := 2 |}.

(** The same arguments, but training from scratch. *)
Definition cfg_random : config :=
  {| pretrained_log_name := "random";
     load_path := "checkpoints/best.pt";
     log_name := "HDFS";
     tune_mode := "adapter";
     num_layers := 1;
     lr := 1;
     window_size := 20;
     adapter_size := 64;
     epoch := 2 |}.

Definition rng0 : rngs :=
  {| torch_cpu := 0; torch_cuda := 0; numpy_gen := 0; python_gen := 0 |}.

Definition rng1 : rngs :=
  {| torch_cpu := 5; torch_cuda := 6; numpy_gen := 7; python_gen := 8 |}.

Definition clock0 : nat -> Z := Z.of_nat.
Definition clock1 : nat -> Z := fun n => 1000 + 3 * Z.of_nat n.

Definition one_hot (c : Z) : list Z := [1 - c; c].

Definition checkpoint_net : state_dict :=
  {[ "module.adapter.weight" := ([4; 2]%nat, 20);
     "module.fc1.weight" := ([9; 4]%nat, 30);
     "module.fc1.bias" := ([9]%nat, 40);
     "module.stale" := ([1]%nat, 50) ]}.

(** A file system with the two archives, the checkpoint, and a result file
    left over from an earlier run with the same configuration. *)
Definition fs0 : gmap string (list chunk) :=
  {[ training_path cfg := [NpzBlob [0; 1; 1] [one_hot 0; one_hot 1; one_hot 1]];
     testing_path cfg := [NpzBlob [1; 0] [one_hot 1; one_hot 0]];
     load_path cfg := [CkptBlob {[ "net" := checkpoint_net ]}];
     result_path cfg := [Rec (RNumEpochs 7)] ]}.

(** The directories of the inputs and of the results all exist. *)
Definition dirs0 : gset string :=
  {[ "result"; "./preprocessed_data"; "checkpoints" ]}.

Definition w0 : world := boot fs0 dirs0 rng0 clock0.

(** The same inputs without a result file. *)
Definition fs1 : gmap string (list chunk) := delete (result_path cfg) fs0.

(** A checkpoint whose mapping has no [module.fc1.bias]. *)
Definition headless_net : state_dict := delete "module.fc1.bias" checkpoint_net.

Definition w_headless : world :=
  boot (<[load_path cfg := [CkptBlob {[ "net" := headless_net ]}]]> fs0)
       dirs0 rng0 clock0.

(** The network as it stands when the checkpoint is loaded. *)
Definition model0 : module :=
  data_parallel (tune_mode_dispatch (tune_mode cfg) fresh_model).

Definition learner0 : learner :=
  {| net := model0; optimizer := O; scheduler := O |}.

Definition test_ds : list (window * row) := [(1, one_hot 1); (0, one_hot 0)].

Definition train_ds : list (window * row) :=
  [(0, one_hot 0); (1, one_hot 1); (1, one_hot 1)].

(** The training half of epoch 0 on [train_ds]. *)
Definition first_epoch : world * result (learner * acc) :=
  train_epoch cfg train_ds 2 0 learner0 w0.

Definition value_or {A} (d : A) (r : result A) : A :=
  match r with
  | Ok a => a
  | Raise _ => d
  end.

Definition first_la : learner * acc :=
  value_or (learner0, fresh_acc 0) first_epoch.2.

(** The accumulators after some batches of an epoch: one prediction and one
    label so far. *)
Definition acc_before : acc :=
  {| loss_all := []; f1_all := []; train_loss := 5;
     train_pred := [O]; train_true := [O]; start_time := 0 |}.

(** File systems with one input missing. *)
Definition fs_no_training : gmap string (list chunk) :=
  delete (training_path cfg) fs0.

Definition fs_no_testing : gmap string (list chunk) :=
  delete (testing_path cfg) fs0.

Definition w_no_checkpoint : world :=
  boot (delete (load_path cfg) fs0) dirs0 rng0 clock0.

(** A checkpoint that holds an optimizer state but no [net]. *)
Definition w_no_net : world :=
  boot (<[load_path cfg := [CkptBlob {[ "optimizer" := ∅ ]}]]> fs0)
       dirs0 rng0 clock0.

(** A checkpoint whose encoder weight has another size than the model's. *)
Definition misshapen_net : state_dict :=
  <["module.encoder.weight" := ([8; 8]%nat, 60)]> checkpoint_net.

Definition w_misshapen : world :=
  boot (<[load_path cfg := [CkptBlob {[ "net" := misshapen_net ]}]]> fs0)
       dirs0 rng0 clock0.

(** The load of the checkpoint of [fs0] into [model0]. *)
Definition first_load : world * result module :=
  load_pretrained cfg model0 w0.

Definition loaded_model : module := value_or model0 first_load.2.

(** A fresh checkout: the inputs are in place, the directory [result] has
    not been created. *)
Definition w_no_result_dir : world :=
  boot fs1 {[ "./preprocessed_data"; "checkpoints" ]} rng0 clock0.

(** A training set of 6401 samples: 101 batches of at most 64, so that the
    batch of index 100 ends a logging interval. *)
Definition long_ds : list (window * row) :=
  repeat (1, one_hot 1) (100 * 64 + 1).

(** The arguments of [cfg] with another window size and checkpoint path. *)
Definition cfg_other_window : config :=
  {| pretrained_log_name := "BGL_2k";
     load_path := "checkpoints/other.pt";
     log_name := "HDFS";
     tune_mode := "adapter";
     num_layers := 1;
     lr := 1;
     window_size := 50;
     adapter_size := 64;
     epoch := 2 |}.

End Demo.

(** * Properties *)

Section Proofs.
Context {V : Values} {E : External V}.
Local Open Scope script_scope.

(** ** Running binds *)

Lemma bind_ok {A B} (m : M A) (f : A -> M B) w w' b :
  bind m f w = (w', Ok b) ->
  exists w1 a, m w = (w1, Ok a) /\ f a w1 = (w', Ok b).
Proof.
  unfold bind. destruct (m w) as [w1 [a|e]]; [eauto | discriminate].
Qed.

Lemma bind_step {A B} (m : M A) (f : A -> M B) w w1 a :
  m w = (w1, Ok a) -> bind m f w = f a w1.
Proof. unfold bind. now intros ->. Qed.

Lemma bind_raises {A B} (m : M A) (f : A -> M B) w w1 e :
  m w = (w1, Raise e) -> bind m f w = (w1, Raise e).
Proof. unfold bind. now intros ->. Qed.

Lemma eqb_ne (s t : string) : s <> t -> String.eqb s t = false.
Proof. apply String.eqb_neq. Qed.

(** ** Opening the result file *)

Lemma write_file_ok p mode recs w :
  parent_exists (w_dirs w) p = true ->
  write_file p mode recs w =
  (with_fs (fun fs => <[p := opened mode (fs !! p) ++ map Rec recs]> fs) w, Ok tt).
Proof. unfold write_file. now intros ->. Qed.

Lemma write_file_fails p mode recs w :
  parent_exists (w_dirs w) p = false ->
  write_file p mode recs w = (w, Raise (FileNotFoundError p)).
Proof. unfold write_file. now intros ->. Qed.

Lemma write_file_inv p mode recs w w' u :
  write_file p mode recs w = (w', Ok u) ->
  parent_exists (w_dirs w) p = true /\
  w' = with_fs (fun fs => <[p := opened mode (fs !! p) ++ map Rec recs]> fs) w.
Proof.
  unfold write_file. destruct (parent_exists _ _); [|discriminate].
  now intros [= <- _].
Qed.

Lemma write_file_raise p mode recs w w' e :
  write_file p mode recs w = (w', Raise e) ->
  parent_exists (w_dirs w) p = false /\ w' = w /\ e = FileNotFoundError p.
Proof.
  unfold write_file. destruct (parent_exists _ _); [discriminate|].
  now intros [= <- <-].
Qed.

(** ** Tuning-mode selector *)


(** Under "tuning" every parameter is trainable and keeps its data. *)
Lemma tuning_enables_all (model : module) (k : string) (p : param) :
  tune_mode_dispatch "tuning" model !! k = Some p ->
  p_requires_grad p = true /\
  exists p0, model !! k = Some p0 /\ p_data p = p_data p0.
Proof.
  change (tune_mode_dispatch "tuning" model) with (enable_grad <$> model).
  rewrite lookup_fmap. destruct (model !! k) as [p0|]; [|discriminate].
  intros H. injection H as <-. eauto.
Qed.

(** ** Checkpoint loading *)

Lemma without_head_weight (net : state_dict) :
  without_head net !! head_weight = None.
Proof.
  unfold without_head. rewrite lookup_delete_ne by discriminate.
  apply lookup_delete_eq.
Qed.

Lemma without_head_bias (net : state_dict) :
  without_head net !! head_bias = None.
Proof. unfold without_head. apply lookup_delete_eq. Qed.

Lemma without_head_other (net : state_dict) (k : string) :
  k <> head_weight -> k <> head_bias -> without_head net !! k = net !! k.
Proof.
  intros Hw Hb. unfold without_head.
  rewrite lookup_delete_ne by congruence. apply lookup_delete_ne. congruence.
Qed.

Lemma missing_keys_spec (net : state_dict) (model : module) (k : string) :
  k ∈ missing_keys net model <-> is_Some (model !! k) /\ net !! k = None.
Proof.
  unfold missing_keys.
  rewrite elem_of_elements, elem_of_difference, elem_of_dom, not_elem_of_dom.
  reflexivity.
Qed.

Lemma unexpected_keys_spec (net : state_dict) (model : module) (k : string) :
  k ∈ unexpected_keys net model <-> is_Some (net !! k) /\ model !! k = None.
Proof.
  unfold unexpected_keys.
  rewrite elem_of_elements, elem_of_difference, elem_of_dom, not_elem_of_dom.
  reflexivity.
Qed.

Lemma shapes_ok_spec (net : state_dict) (model : module) :
  forallb (shape_ok net) (map_to_list model) = true <->
  (forall k t p, net !! k = Some t -> model !! k = Some p ->
                 shape t = shape (p_data p)).
Proof.
  rewrite forallb_forall. split.
  - intros H k t p Hn Hm.
    assert (Hin : In (k, p) (map_to_list model)).
    { apply list_elem_of_In. now apply elem_of_map_to_list. }
    apply H in Hin. unfold shape_ok in Hin. simpl in Hin. rewrite Hn in Hin.
    now apply bool_decide_eq_true in Hin.
  - intros H [k p] Hin. apply list_elem_of_In, elem_of_map_to_list in Hin.
    unfold shape_ok. simpl. destruct (net !! k) as [t|] eqn:Hn; [|done].
    apply bool_decide_eq_true. eauto.
Qed.

Lemma load_state_dict_lookup (net : state_dict) (model : module) (k : string) :
  map_imap (load_param net) model !! k =
  (fun p => match net !! k with
            | Some t => {| p_data := t; p_requires_grad := p_requires_grad p |}
            | None => p
            end) <$> model !! k.
Proof.
  rewrite map_lookup_imap. now destruct (model !! k).
Qed.

Lemma load_state_dict_nonstrict (net : state_dict) (model : module) w :
  forallb (shape_ok net) (map_to_list model) = true ->
  load_state_dict net false model w =
  (add_call (CLoadStateDict (elements (dom net)) false) w,
   Ok (map_imap (load_param net) model,
       (missing_keys net model, unexpected_keys net model))).
Proof.
  intros H. unfold load_state_dict, bind, called. now rewrite H.
Qed.

(** C2. Loading a checkpoint that has both head entries, the directory of
    the result file being there as it was when the file was first opened:
    exactly those two entries are dropped, every remaining entry whose key
    the model has replaces that parameter's data, parameters the checkpoint
    does not name keep their value, keys on one side only are tolerated,
    and the keys missing and unexpected are written to the result file. *)
Theorem load_pretrained_drops_head (cfg : config) (model : module) (w : world)
    (ck : gmap string state_dict) (net : state_dict) :
  pretrained_log_name cfg <> "random" ->
  parent_exists (w_dirs w) (result_path cfg) = true ->
  w_fs w !! load_path cfg = Some [CkptBlob ck] ->
  ck !! "net" = Some net ->
  is_Some (net !! head_weight) ->
  is_Some (net !! head_bias) ->
  (forall k t p, without_head net !! k = Some t -> model !! k = Some p ->
                 shape t = shape (p_data p)) ->
  exists model',
    load_pretrained cfg model w = (loaded_world cfg net model w, Ok model') /\
    without_head net !! head_weight = None /\
    without_head net !! head_bias = None /\
    (forall k, k <> head_weight -> k <> head_bias ->
               without_head net !! k = net !! k) /\
    (forall k t p, without_head net !! k = Some t -> model !! k = Some p ->
       model' !! k = Some {| p_data := t;
                             p_requires_grad := p_requires_grad p |}) /\
    (forall k, without_head net !! k = None -> model' !! k = model !! k) /\
    (forall k, model !! k = None -> model' !! k = None) /\
    (forall k, k ∈ missing_keys (without_head net) model <->
               is_Some (model !! k) /\ without_head net !! k = None) /\
    (forall k, k ∈ unexpected_keys (without_head net) model <->
               is_Some (without_head net !! k) /\ model !! k = None).
Proof.
  intros Hname Hdir Hfile Hnet [tw Hw] [tb Hb] Hshape.
  exists (map_imap (load_param (without_head net)) model).
  split.
  - unfold load_pretrained. rewrite (eqb_ne _ _ Hname). simpl.
    rewrite (bind_step _ _ w (add_call (CTorchLoad (load_path cfg)) w) ck).
    2:{ unfold torch_load. now rewrite Hfile. }
    unfold dict_get at 1. rewrite Hnet.
    rewrite (bind_step _ _ _ _ net eq_refl).
    unfold dict_pop at 1. fold head_weight. rewrite Hw.
    rewrite (bind_step _ _ _ _ (delete head_weight net) eq_refl).
    unfold dict_pop at 1. fold head_bias.
    rewrite lookup_delete_ne by discriminate. rewrite Hb.
    rewrite (bind_step _ _ _ _ (without_head net) eq_refl).
    erewrite bind_step.
    2:{ apply load_state_dict_nonstrict. now apply shapes_ok_spec. }
    erewrite bind_step; [reflexivity|]. now apply write_file_ok.
  - split; [apply without_head_weight|].
    split; [apply without_head_bias|].
    split; [apply without_head_other|].
    split.
    { intros k t p Hk Hm. now rewrite load_state_dict_lookup, Hm, Hk. }
    split.
    { intros k Hk. rewrite load_state_dict_lookup, Hk. now destruct (model !! k). }
    split.
    { intros k Hm. now rewrite load_state_dict_lookup, Hm. }
    split; [apply missing_keys_spec | apply unexpected_keys_spec].
Qed.

(** C9. With the pretraining source named "random" the loading step does
    nothing at all: the world is untouched (no checkpoint read, nothing
    written) and the model comes back as it went in. *)
Theorem load_pretrained_random (cfg : config) (model : module) (w : world) :
  pretrained_log_name cfg = "random" ->
  load_pretrained cfg model w = (w, Ok model).
Proof.
  intros H. unfold load_pretrained. now rewrite H.
Qed.

(** C10. A checkpoint whose mapping lacks one of the two head entries
    makes the removal raise [KeyError]; at that point the only thing that
    has happened is the read of the checkpoint, so no parameter was
    applied and nothing was reported.  Hence a load that succeeds had both
    entries. *)
Theorem load_pretrained_needs_head (cfg : config) (model : module) (w : world)
    (ck : gmap string state_dict) (net : state_dict) :
  pretrained_log_name cfg <> "random" ->
  w_fs w !! load_path cfg = Some [CkptBlob ck] ->
  ck !! "net" = Some net ->
  (net !! head_weight = None \/ net !! head_bias = None ->
   exists k, (k = head_weight \/ k = head_bias) /\
     load_pretrained cfg model w =
     (add_call (CTorchLoad (load_path cfg)) w, Raise (KeyError k))) /\
  (forall w' model', load_pretrained cfg model w = (w', Ok model') ->
     is_Some (net !! head_weight) /\ is_Some (net !! head_bias)).
Proof.
  intros Hname Hfile Hnet.
  assert (Hrun : load_pretrained cfg model w =
    bind (dict_pop head_weight net) (fun net1 =>
      bind (dict_pop head_bias net1) (fun net2 =>
        bind (load_state_dict net2 false model) (fun mr =>
          bind (write_file (result_path cfg) ModeA
                  [RLoadingModel (load_path cfg);
                   RLoadingResult mr.2.1 mr.2.2])
               (fun _ => ret mr.1))))
      (add_call (CTorchLoad (load_path cfg)) w)).
  { unfold load_pretrained. rewrite (eqb_ne _ _ Hname). simpl.
    rewrite (bind_step _ _ w (add_call (CTorchLoad (load_path cfg)) w) ck).
    2:{ unfold torch_load. now rewrite Hfile. }
    unfold dict_get at 1. rewrite Hnet.
    now rewrite (bind_step _ _ _ _ net eq_refl). }
  rewrite Hrun. clear Hrun. split.
  - destruct (net !! head_weight) as [tw|] eqn:Hw.
    + intros [?|Hb]; [discriminate|]. exists head_bias. split; [now right|].
      unfold dict_pop at 1. rewrite Hw.
      rewrite (bind_step _ _ _ _ (delete head_weight net) eq_refl).
      unfold dict_pop at 1. rewrite lookup_delete_ne by discriminate.
      now rewrite Hb.
    + intros _. exists head_weight. split; [now left|].
      unfold dict_pop at 1. now rewrite Hw.
  - intros w' model' H.
    apply bind_ok in H as (w1 & net1 & H1 & H).
    apply bind_ok in H as (w2 & net2 & H2 & _).
    unfold dict_pop in H1. destruct (net !! head_weight) eqn:Hw; [|discriminate].
    injection H1 as <- <-.
    unfold dict_pop in H2. rewrite lookup_delete_ne in H2 by discriminate.
    destruct (net !! head_bias) eqn:Hb; [|discriminate].
    split; eauto.
Qed.

(** ** What a run leaves on disk and in the trace *)

Lemma whole_steps_add j k : whole_steps j ++ whole_steps k = whole_steps (j + k).
Proof.
  unfold whole_steps. now rewrite replicate_add, concat_app.
Qed.

#[local] Instance no_steps_ok : Steps no_steps.
Proof. split; [done|]. unfold no_steps. now intros ? ? -> ->. Qed.

#[local] Instance only_whole_steps_ok : Steps only_whole_steps.
Proof.
  split; [now exists O|].
  intros ? ? [j ->] [k ->]. exists (j + k)%nat. apply whole_steps_add.
Qed.

Lemma step_calls_app cs ds : step_calls (cs ++ ds) = step_calls cs ++ step_calls ds.
Proof. apply List.filter_app. Qed.

Section Frame.
Context (T : list call -> Prop) `{!Steps T} (p : string).

Lemma stays_refl w : stays T p w w.
Proof.
  split; [done | exists []; simpl; now rewrite app_nil_r | | done].
  exists []. split; [now rewrite app_nil_r | apply steps_nil].
Qed.

Lemma stays_step_calls w w' :
  stays T p w w' ->
  exists cs, step_calls (w_calls w') = step_calls (w_calls w) ++ cs /\ T cs.
Proof.
  intros [_ _ [cs [Hc Ht]] _]. exists (step_calls cs).
  now rewrite Hc, step_calls_app.
Qed.

Lemma stays_trans w1 w2 w3 : stays T p w1 w2 -> stays T p w2 w3 -> stays T p w1 w3.
Proof.
  intros [Ho1 [l1 Ha1] [c1 [Hs1 Ht1]] Hd1] [Ho2 [l2 Ha2] [c2 [Hs2 Ht2]] Hd2].
  split.
  - intros q Hq. now rewrite Ho2, Ho1.
  - exists (l1 ++ l2). now rewrite Ha2, Ha1, map_app, app_assoc.
  - exists (c1 ++ c2). split; [now rewrite Hs2, Hs1, <- app_assoc|].
    rewrite step_calls_app. now apply steps_app.
  - congruence.
Qed.

(** A step that leaves the files alone and makes no optimisation call. *)
Lemma stays_quiet w w' cs :
  w_fs w' = w_fs w ->
  w_dirs w' = w_dirs w ->
  w_calls w' = w_calls w ++ cs ->
  step_calls cs = [] ->
  stays T p w w'.
Proof.
  intros Hfs Hd Hc Hs. split.
  - intros q _. now rewrite Hfs.
  - exists []. rewrite Hfs. simpl. now rewrite app_nil_r.
  - exists cs. split; [done|]. rewrite Hs. apply steps_nil.
  - exact Hd.
Qed.

Lemma preserves_ret {A} (a : A) : preserves (stays T p) (ret a).
Proof. intros w. apply stays_refl. Qed.

Lemma preserves_raise {A} (e : exn) : preserves (stays T p) (raise (A:=A) e).
Proof. intros w. apply stays_refl. Qed.

Lemma preserves_bind {A B} (m : M A) (f : A -> M B) :
  preserves (stays T p) m -> (forall a, preserves (stays T p) (f a)) ->
  preserves (stays T p) (bind m f).
Proof.
  intros Hm Hf w. unfold bind. specialize (Hm w).
  destruct (m w) as [w1 [a|e]]; simpl in *; [|done].
  eapply stays_trans; [exact Hm | apply Hf].
Qed.

Lemma preserves_for_each {A S} (body : A -> S -> M S) (l : list A) (s : S) :
  (forall a s, preserves (stays T p) (body a s)) ->
  preserves (stays T p) (for_each body l s).
Proof.
  intros Hb. revert s. induction l as [|a l IH]; intros s; simpl.
  - apply preserves_ret.
  - apply preserves_bind; [apply Hb | apply IH].
Qed.

(** The leaves: operations that touch neither the files nor the steps. *)
Ltac quiet :=
  let w := fresh "w" in
  intros w; simpl;
  repeat match goal with
         | |- context [match ?x with _ => _ end] => destruct x
         end;
  simpl;
  first
    [ apply (stays_quiet _ _ []);
        [reflexivity | reflexivity | simpl; now rewrite app_nil_r | reflexivity]
    | eapply stays_quiet;
        [reflexivity | reflexivity | simpl; reflexivity | reflexivity] ].

Lemma preserves_called {A} (c : call) (a : A) :
  is_step_call c = false -> preserves (stays T p) (called c a).
Proof.
  intros Hc w. apply (stays_quiet _ _ [c]); simpl; [done | done | done |].
  unfold step_calls. simpl. now rewrite Hc.
Qed.

Lemma preserves_print r : preserves (stays T p) (print r).
Proof. unfold print. quiet. Qed.

Lemma preserves_time_time : preserves (stays T p) time_time.
Proof. unfold time_time. quiet. Qed.

Lemma preserves_np_load q : preserves (stays T p) (np_load q).
Proof. unfold np_load. quiet. Qed.

Lemma preserves_torch_load q : preserves (stays T p) (torch_load q).
Proof. unfold torch_load. quiet. Qed.

Lemma preserves_dict_get {A} k (d : gmap string A) :
  preserves (stays T p) (dict_get k d).
Proof. unfold dict_get. destruct (d !! k); [apply preserves_ret | apply preserves_raise]. Qed.

Lemma preserves_dict_pop {A} k (d : gmap string A) :
  preserves (stays T p) (dict_pop k d).
Proof. unfold dict_pop. destruct (d !! k); [apply preserves_ret | apply preserves_raise]. Qed.

Lemma preserves_py_div x n : preserves (stays T p) (py_div x n).
Proof. unfold py_div. destruct (n =? 0); [apply preserves_raise | apply preserves_ret]. Qed.

Lemma preserves_f1 t q : preserves (stays T p) (sk_f1_score t q).
Proof.
  unfold sk_f1_score. destruct (f1_score t q); [apply preserves_ret | apply preserves_raise].
Qed.

Lemma preserves_prfs t q :
  preserves (stays T p) (sk_precision_recall_fscore_support t q).
Proof.
  unfold sk_precision_recall_fscore_support.
  destruct (precision_recall_fscore_support t q);
    [apply preserves_ret | apply preserves_raise].
Qed.

Lemma preserves_seeds : preserves (stays T p) fix_all_random_seeds.
Proof.
  unfold fix_all_random_seeds.
  apply preserves_bind; [unfold torch_manual_seed; quiet | intros _].
  apply preserves_bind; [unfold torch_cuda_manual_seed; quiet | intros _].
  apply preserves_bind; [unfold np_random_seed; quiet | intros _].
  unfold random_seed; quiet.
Qed.

Lemma preserves_create_model cfg : preserves (stays T p) (create_model cfg).
Proof. unfold create_model. quiet. Qed.

Lemma preserves_draw_base_seed : preserves (stays T p) draw_base_seed.
Proof. unfold draw_base_seed. quiet. Qed.

Lemma preserves_sampler b n : preserves (stays T p) (sampler b n).
Proof.
  unfold sampler. destruct b; [quiet | apply preserves_ret].
Qed.

Lemma preserves_iter_loader b ds : preserves (stays T p) (iter_loader b ds).
Proof.
  unfold iter_loader. apply preserves_bind; [apply preserves_draw_base_seed|].
  intros _. apply preserves_bind; [apply preserves_sampler|].
  intros order. destruct (mapM _ order); [apply preserves_ret | apply preserves_raise].
Qed.

(** Appending records to the result file, or failing to open it. *)
Lemma preserves_append recs : preserves (stays T p) (write_file p ModeA recs).
Proof.
  intros w. unfold write_file.
  destruct (parent_exists _ _); [|apply stays_refl]. split; simpl.
  - intros q Hq. now rewrite lookup_insert_ne.
  - exists recs. unfold content. now rewrite lookup_insert_eq.
  - exists []. split; [now rewrite app_nil_r | apply steps_nil].
  - reflexivity.
Qed.

Lemma run_stays {A} (m : M A) w w' r :
  preserves (stays T p) m -> m w = (w', r) -> stays T p w w'.
Proof. intros H Hr. specialize (H w). now rewrite Hr in H. Qed.

Lemma preserves_load_state_dict net strict model :
  preserves (stays T p) (load_state_dict net strict model).
Proof.
  unfold load_state_dict. apply preserves_bind; [now apply preserves_called|].
  intros _. repeat case_match; (apply preserves_raise || apply preserves_ret).
Qed.

Lemma preserves_OneCycleLR o max_lr epochs spe :
  preserves (stays T p) (OneCycleLR o max_lr epochs spe).
Proof.
  unfold OneCycleLR. apply preserves_bind; [now apply preserves_called|].
  intros _. case_match; (apply preserves_raise || apply preserves_ret).
Qed.

Lemma preserves_eval_batch m item buf : preserves (stays T p) (eval_batch m item buf).
Proof.
  unfold eval_batch. apply preserves_bind; [now apply preserves_called|].
  intros out. repeat case_match; (apply preserves_raise || apply preserves_ret).
Qed.

Lemma preserves_eval_loop m ds : preserves (stays T p) (eval_loop m ds).
Proof.
  unfold eval_loop. apply preserves_bind; [apply preserves_iter_loader|].
  intros batches. apply preserves_bind.
  - apply preserves_for_each. intros. apply preserves_eval_batch.
  - intros buf. case_match; (apply preserves_raise || apply preserves_ret).
Qed.

End Frame.

Ltac frame_leaf :=
  first
    [ apply preserves_print | apply preserves_time_time | apply preserves_np_load
    | apply preserves_torch_load | apply preserves_dict_get
    | apply preserves_dict_pop | apply preserves_py_div | apply preserves_f1
    | apply preserves_prfs | apply preserves_seeds | apply preserves_create_model
    | apply preserves_iter_loader | apply preserves_append
    | apply preserves_load_state_dict | apply preserves_OneCycleLR
    | apply preserves_eval_loop | apply preserves_ret | apply preserves_raise
    | apply preserves_called; [tc_solve | reflexivity] ].

Ltac frame :=
  repeat (first
    [ frame_leaf
    | apply preserves_bind; [tc_solve | | intros ?]
    | case_match ]; try tc_solve).

Section FrameResult.
Context (T : list call -> Prop) `{!Steps T} (cfg : config).

Local Abbreviation inv := (preserves (stays T (result_path cfg))).

Lemma preserves_load_pretrained model : inv (load_pretrained cfg model).
Proof. unfold load_pretrained. frame. Qed.

Lemma preserves_log_block epoch nb batch_idx l a :
  inv (log_block cfg epoch nb batch_idx l a).
Proof. unfold log_block. frame. Qed.

Lemma preserves_eval_epoch ds n epoch m a : inv (eval_epoch cfg ds n epoch m a).
Proof. unfold eval_epoch. frame. Qed.

End FrameResult.

Lemma add_calls_nil w : add_calls [] w = w.
Proof. destruct w. unfold add_calls. simpl. now rewrite app_nil_r. Qed.

Lemma add_calls_app cs ds w : add_calls ds (add_calls cs w) = add_calls (cs ++ ds) w.
Proof. unfold add_calls. simpl. now rewrite app_assoc. Qed.

Lemma add_call_calls c w : add_call c w = add_calls [c] w.
Proof. reflexivity. Qed.

Lemma bind_called {A B} (c : call) (a : A) (f : A -> M B) w :
  bind (called c a) f w = f a (add_call c w).
Proof. reflexivity. Qed.

(** One optimisation step always completes, and it is the step of the
    specification: the seven calls are made in the order of [step_pattern],
    each on the outcome of the one before, and the learner, the logits, the
    loss and the generators that come out are those of [spec_step]. *)
Lemma train_step_spec (l : learner) x y w :
  train_step l x y w =
  (add_calls step_pattern (with_rng (sr_rng (spec_step l x y (w_rng w))) w),
   Ok (sr_learner (spec_step l x y (w_rng w)),
       sr_out (spec_step l x y (w_rng w)),
       sr_loss (spec_step l x y (w_rng w)))).
Proof.
  unfold train_step, spec_step. unfold bind at 1, model_call.
  destruct (forward_train (net l) x (w_rng w)) as [out r]. cbn [fst snd].
  repeat (rewrite bind_called; cbv beta).
  unfold ret. cbn [sr_learner sr_out sr_loss sr_rng]. f_equal.
  rewrite !add_call_calls, !add_calls_app. reflexivity.
Qed.

Lemma train_step_runs (l : learner) x y w :
  exists r,
    train_step l x y w =
    (add_calls step_pattern
       (with_rng (forward_train (net l) x (w_rng w)).2 w), Ok r).
Proof. eexists. apply train_step_spec. Qed.

Section FrameTraining.
Context (cfg : config).

Local Abbreviation inv := (preserves (stays only_whole_steps (result_path cfg))).

Lemma preserves_train_step l x y : inv (train_step l x y).
Proof.
  intros w. destruct (train_step_runs l x y w) as [r ->]. simpl. split; simpl.
  - done.
  - exists []. simpl. now rewrite app_nil_r.
  - exists step_pattern. split; [done|]. now exists 1%nat.
  - done.
Qed.

Lemma preserves_train_batch epoch nb item st : inv (train_batch cfg epoch nb item st).
Proof.
  unfold train_batch.
  apply preserves_bind; [tc_solve | apply preserves_train_step | intros r].
  case_match; [|frame].
  apply preserves_bind; [tc_solve | apply preserves_log_block; tc_solve | intros ?].
  frame.
Qed.

Lemma preserves_train_epoch ds epochs epoch l : inv (train_epoch cfg ds epochs epoch l).
Proof.
  unfold train_epoch. frame.
  apply preserves_for_each; [tc_solve | intros; apply preserves_train_batch].
Qed.

Lemma preserves_run_epoch tr te n epochs epoch l :
  inv (run_epoch cfg tr te n epochs epoch l).
Proof.
  unfold run_epoch.
  apply preserves_bind; [tc_solve | apply preserves_train_epoch | intros la].
  apply preserves_bind; [tc_solve | apply preserves_eval_epoch; tc_solve | intros _].
  frame.
Qed.

Lemma preserves_script_body : inv (script_body cfg).
Proof.
  unfold script_body. frame.
  - apply preserves_load_pretrained; tc_solve.
  - intros model. frame.
    apply preserves_for_each; [tc_solve | intros; apply preserves_run_epoch].
Qed.

End FrameTraining.

(** ** Batches *)

Lemma chunks_fuel_length {A} (n fuel : nat) (l : list A) :
  (0 < n)%nat -> (length l <= fuel)%nat ->
  length (chunks_fuel fuel n l) = ((length l + n - 1) / n)%nat.
Proof.
  intros Hn. revert l. induction fuel as [|fuel IH]; intros l Hl.
  - destruct l; [|simpl in Hl; lia]. simpl.
    symmetry. apply Nat.div_small. lia.
  - destruct l as [|a l]; [simpl; symmetry; apply Nat.div_small; lia|].
    cbn [chunks_fuel length]. rewrite IH.
    2:{ rewrite length_drop. simpl in *. lia. }
    rewrite length_drop. cbn [length].
    set (len := S (length l)). assert (1 <= len)%nat by (unfold len; lia).
    destruct (decide (len <= n)%nat) as [Hle|Hgt].
    + replace (len - n)%nat with O by lia.
      rewrite (Nat.div_small (0 + n - 1) n) by lia.
      apply (Nat.div_unique _ _ _ (len - 1)); lia.
    + replace (len + n - 1)%nat with ((len - n + n - 1) + 1 * n)%nat by lia.
      rewrite Nat.div_add by lia. lia.
Qed.

(** The loader yields as many batches as [len(loader)] announces. *)
Lemma chunks_length {A} (l : list A) :
  length (chunks batch_size l) = loader_len (length l).
Proof.
  unfold chunks, loader_len. apply chunks_fuel_length; [unfold batch_size|]; lia.
Qed.

Lemma chunks_fuel_concat {A} (n fuel : nat) (l : list A) :
  (0 < n)%nat -> (length l <= fuel)%nat -> concat (chunks_fuel fuel n l) = l.
Proof.
  intros Hn. revert l. induction fuel as [|fuel IH]; intros l Hl.
  - destruct l; [done | simpl in Hl; lia].
  - destruct l as [|a l]; [done|].
    cbn [chunks_fuel concat]. rewrite IH.
    + apply take_drop.
    + rewrite length_drop. simpl in *. lia.
Qed.

(** Batching keeps the samples and their order. *)
Lemma chunks_concat {A} (l : list A) : concat (chunks batch_size l) = l.
Proof. apply chunks_fuel_concat; [unfold batch_size|]; lia. Qed.

Lemma enumerate_from_length {A} k (l : list A) :
  length (enumerate_from k l) = length l.
Proof. revert k. induction l; intros k; simpl; [done | now rewrite IHl]. Qed.

Lemma range_from_zero (hi : Z) :
  range (start_epoch + 1) hi = map Z.of_nat (seq 0 (Z.to_nat hi)).
Proof.
  unfold range, start_epoch. simpl. now rewrite Z.sub_0_r.
Qed.

Lemma mapM_lookup_seq {A} (pre l : list A) :
  mapM (fun i => (pre ++ l) !! i) (seq (length pre) (length l)) = Some l.
Proof.
  revert pre. induction l as [|a l IH]; intros pre; [done|].
  cbn [length seq mapM]. rewrite list_lookup_middle by done. simpl.
  specialize (IH (pre ++ [a])).
  rewrite <- app_assoc, length_app in IH. simpl in IH.
  rewrite Nat.add_1_r in IH. now rewrite IH.
Qed.

Lemma shuffled_samples {A} (ds samples : list A) (order : list nat) :
  order ≡ₚ seq 0 (length ds) ->
  mapM (fun i => ds !! i) order = Some samples ->
  samples ≡ₚ ds.
Proof.
  intros Hp Hm. apply mapM_Some_1 in Hm.
  destruct (Permutation_Forall2 Hp Hm) as (s' & Hs & Hf).
  apply mapM_Some_2 in Hf.
  pose proof (mapM_lookup_seq [] ds) as Hseq. cbn [app length] in Hseq.
  rewrite Hseq in Hf. injection Hf as <-. exact Hs.
Qed.

(** Every index of a permutation of [0 .. n-1] is in range. *)
Lemma mapM_lookup_perm {A} (ds : list A) (order : list nat) :
  order ≡ₚ seq 0 (length ds) ->
  mapM (fun i => ds !! i) order = Some (omap (fun i => ds !! i) order).
Proof.
  intros Hp.
  assert (Hall : Forall (fun i => (i < length ds)%nat) order).
  { apply Forall_forall. intros i Hi. rewrite Hp in Hi.
    apply elem_of_seq in Hi. lia. }
  clear Hp. induction Hall as [|i order Hi _ IH]; [done|].
  destruct (lookup_lt_is_Some_2 ds i Hi) as [a Ha].
  cbn [mapM]. rewrite Ha, IH. simpl. now rewrite Ha.
Qed.

(** One pass of the shuffling loader always yields its batches: the base
    seed is drawn, then the permutation, and the samples are taken in the
    order of the permutation. *)
Lemma iter_loader_shuffled_run ds w :
  iter_loader true ds w =
  (add_call (CSample (randperm (length ds) (base_seed (w_rng w)).2).1)
     (with_rng (randperm (length ds) (base_seed (w_rng w)).2).2 w),
   Ok (spec_batches ds (w_rng w)).1).
Proof.
  unfold iter_loader, spec_batches, bind, draw_base_seed, sampler.
  cbn [fst snd w_rng with_rng].
  pose proof (randperm_perm (length ds) (base_seed (w_rng w)).2) as Hp.
  destruct (randperm (length ds) (base_seed (w_rng w)).2) as [order r].
  cbn [fst snd] in *. rewrite (mapM_lookup_perm _ _ Hp). reflexivity.
Qed.

(** The shuffling loader yields a rearrangement of the data set, cut into
    batches. *)
Lemma iter_loader_shuffled ds w w' batches :
  iter_loader true ds w = (w', Ok batches) ->
  exists samples,
    samples ≡ₚ ds /\ batches = map collate (chunks batch_size samples).
Proof.
  rewrite iter_loader_shuffled_run. intros [= _ <-].
  unfold spec_batches. cbn [fst]. eexists. split; [|reflexivity].
  eapply shuffled_samples; [|apply mapM_lookup_perm]; apply randperm_perm.
Qed.

Lemma iter_loader_shuffled_length ds w w' batches :
  iter_loader true ds w = (w', Ok batches) ->
  length batches = loader_len (length ds).
Proof.
  intros H. apply iter_loader_shuffled in H as (samples & Hp & ->).
  rewrite length_map, chunks_length. f_equal. now apply Permutation_length.
Qed.

(** Without shuffling the loader yields the data set in its own order; the
    base seed its iterator draws is all it changes. *)
Lemma iter_loader_sequential ds w :
  iter_loader false ds w =
  (with_rng (base_seed (w_rng w)).2 w, Ok (map collate (chunks batch_size ds))).
Proof.
  pose proof (mapM_lookup_seq [] ds) as H. cbn [app length] in H.
  unfold iter_loader, sampler, bind, ret, draw_base_seed. now rewrite H.
Qed.

(** ** Counting optimisation steps *)

Lemma quiet_run {A} (m : M A) p w w' r :
  preserves (stays no_steps p) m -> m w = (w', r) ->
  step_calls (w_calls w') = step_calls (w_calls w).
Proof.
  intros Hm Hr.
  destruct (stays_step_calls _ _ _ _ (run_stays _ _ _ _ _ _ Hm Hr))
    as [cs [-> ->]].
  apply app_nil_r.
Qed.

Section Counting.
Context (cfg : config).

(** Whatever its outcome, the loop body makes exactly one step. *)
Lemma train_batch_steps epoch nb item st w w' r :
  train_batch cfg epoch nb item st w = (w', r) ->
  step_calls (w_calls w') = step_calls (w_calls w) ++ step_pattern.
Proof.
  unfold train_batch.
  destruct (train_step_runs st.1 item.2.1 item.2.2 w) as [r0 Hr0].
  rewrite (bind_step _ _ _ _ _ Hr0).
  set (w1 := add_calls step_pattern _).
  assert (H1 : step_calls (w_calls w1) = step_calls (w_calls w) ++ step_pattern).
  { unfold w1. simpl. now rewrite step_calls_app. }
  case_match.
  - intros Hrun. rewrite <- H1.
    eapply (quiet_run _ (result_path cfg)); [|exact Hrun].
    apply preserves_bind; [tc_solve | apply preserves_log_block; tc_solve|].
    intros. apply preserves_ret; tc_solve.
  - intros Hrun. injection Hrun as <- _. exact H1.
Qed.

Lemma for_each_train_batch_steps epoch nb items st w w' st' :
  for_each (train_batch cfg epoch nb) items st w = (w', Ok st') ->
  step_calls (w_calls w') =
  step_calls (w_calls w) ++ whole_steps (length items).
Proof.
  revert st w. induction items as [|item items IH]; intros st w H.
  - injection H as <- _. simpl. now rewrite app_nil_r.
  - simpl in H. apply bind_ok in H as (w1 & st1 & Hb & H).
    apply IH in H. apply train_batch_steps in Hb.
    rewrite H, Hb, <- app_assoc. reflexivity.
Qed.

Lemma train_epoch_steps ds epochs epoch l w w' la :
  train_epoch cfg ds epochs epoch l w = (w', Ok la) ->
  step_calls (w_calls w') =
  step_calls (w_calls w) ++ whole_steps (loader_len (length ds)).
Proof.
  unfold train_epoch. intros H.
  apply bind_ok in H as (w1 & start & H1 & H).
  apply bind_ok in H as (w2 & batches & H2 & H).
  apply bind_ok in H as (w3 & la' & H3 & H).
  apply (quiet_run _ (result_path cfg)) in H1; [|apply preserves_time_time; tc_solve].
  pose proof (iter_loader_shuffled_length _ _ _ _ H2) as Hlen.
  apply (quiet_run _ (result_path cfg)) in H2; [|apply preserves_iter_loader; tc_solve].
  apply for_each_train_batch_steps in H3.
  unfold enumerate in H3. rewrite enumerate_from_length, Hlen in H3.
  apply (quiet_run _ (result_path cfg)) in H; [|frame].
  congruence.
Qed.

Lemma run_epoch_steps tr te n epochs epoch l w w' l' :
  run_epoch cfg tr te n epochs epoch l w = (w', Ok l') ->
  step_calls (w_calls w') =
  step_calls (w_calls w) ++ whole_steps (loader_len (length tr)).
Proof.
  unfold run_epoch. intros H.
  apply bind_ok in H as (w1 & la & H1 & H).
  apply train_epoch_steps in H1.
  apply (quiet_run _ (result_path cfg)) in H.
  - congruence.
  - apply preserves_bind; [tc_solve | apply preserves_eval_epoch; tc_solve|].
    intros. apply preserves_ret; tc_solve.
Qed.

Lemma whole_steps_mul j k :
  whole_steps k ++ whole_steps (j * k) = whole_steps (S j * k).
Proof. rewrite whole_steps_add. reflexivity. Qed.

Lemma epochs_steps tr te n epochs es l w w' l' :
  for_each (run_epoch cfg tr te n epochs) es l w = (w', Ok l') ->
  step_calls (w_calls w') =
  step_calls (w_calls w) ++ whole_steps (length es * loader_len (length tr)).
Proof.
  revert l w. induction es as [|e es IH]; intros l w H.
  - injection H as <- _. simpl. now rewrite app_nil_r.
  - simpl in H. apply bind_ok in H as (w1 & l1 & Hb & H).
    apply IH in H. apply run_epoch_steps in Hb.
    rewrite H, Hb, <- app_assoc. f_equal. apply whole_steps_mul.
Qed.

End Counting.

(** ** The training loop as a whole *)

Lemma training_path_not_result cfg : training_path cfg <> result_path cfg.
Proof. unfold training_path, result_path. cbn. discriminate. Qed.

Lemma testing_path_not_result cfg : testing_path cfg <> result_path cfg.
Proof. unfold testing_path, result_path. cbn. discriminate. Qed.

Lemma np_load_ok p w w' d :
  np_load p w = (w', Ok d) -> w_fs w !! p = Some [NpzBlob d.1 d.2].
Proof.
  unfold np_load. intros H.
  destruct (w_fs w !! p) as [[|[r|x y|c] [|? ?]]|]; try discriminate.
  now injection H as _ <-.
Qed.

(** What the first statement of the script does: it opens the result file
    afresh and writes the arguments, or stops there when the directory of
    the result file is missing. *)
Lemma main_opened (cfg : config) (w : world) :
  parent_exists (w_dirs w) (result_path cfg) = true ->
  main cfg w =
  script_body cfg
    (with_fs (fun fs => <[result_path cfg := [Rec (RArgs cfg)]]> fs) w).
Proof.
  intros Hd. unfold main.
  now rewrite (bind_step _ _ _ _ _ (write_file_ok _ ModeW _ _ Hd)).
Qed.

Lemma main_not_opened (cfg : config) (w : world) :
  parent_exists (w_dirs w) (result_path cfg) = false ->
  main cfg w = (w, Raise (FileNotFoundError (result_path cfg))).
Proof.
  intros Hd. unfold main. apply bind_raises. now apply write_file_fails.
Qed.

Lemma main_ok_opened (cfg : config) (w w' : world) u :
  main cfg w = (w', Ok u) -> parent_exists (w_dirs w) (result_path cfg) = true.
Proof.
  destruct (parent_exists (w_dirs w) (result_path cfg)) eqn:Hd; [done|].
  now rewrite (main_not_opened _ _ Hd).
Qed.

(** However a run ends, the optimisation calls it made are whole steps:
    no step is ever left half done or done in another order. *)
Lemma training_steps_whole (cfg : config) (w : world) :
  exists k,
    step_calls (w_calls (main cfg w).1) =
    step_calls (w_calls w) ++ whole_steps k.
Proof.
  destruct (parent_exists (w_dirs w) (result_path cfg)) eqn:Hd.
  - rewrite (main_opened _ _ Hd). set (w0 := with_fs _ w).
    destruct (stays_step_calls _ _ w0 _ (preserves_script_body cfg w0))
      as [cs [Hc [k ->]]].
    exists k. exact Hc.
  - rewrite (main_not_opened _ _ Hd). exists O. simpl. now rewrite app_nil_r.
Qed.

(** ** Observations a computation leaves alone *)

Section Unchanged.
Context {X : Type} (obs : world -> X).

Lemma unchanged_ret {A} (a : A) : preserves (unchanged obs) (ret a).
Proof. now intros w. Qed.

Lemma unchanged_raise {A} e : preserves (unchanged obs) (raise (A:=A) e).
Proof. now intros w. Qed.

Lemma unchanged_bind {A B} (m : M A) (f : A -> M B) :
  preserves (unchanged obs) m -> (forall a, preserves (unchanged obs) (f a)) ->
  preserves (unchanged obs) (bind m f).
Proof.
  intros Hm Hf w. unfold bind. specialize (Hm w).
  destruct (m w) as [w1 [a|e]]; simpl in *; [|done].
  unfold unchanged in *. rewrite <- Hm. apply Hf.
Qed.

Lemma unchanged_for_each {A S} (body : A -> S -> M S) (l : list A) (s : S) :
  (forall a s, preserves (unchanged obs) (body a s)) ->
  preserves (unchanged obs) (for_each body l s).
Proof.
  intros Hb. revert s. induction l as [|a l IH]; intros s; simpl.
  - apply unchanged_ret.
  - apply unchanged_bind; [apply Hb | apply IH].
Qed.

Lemma run_unchanged {A} (m : M A) w w' r :
  preserves (unchanged obs) m -> m w = (w', r) -> obs w' = obs w.
Proof. intros H Hr. specialize (H w). now rewrite Hr in H. Qed.

End Unchanged.

(** An operation that does not touch the field observed. *)
Ltac same_field :=
  intros ?; unfold unchanged; simpl;
  repeat match goal with
         | |- context [match ?x with _ => _ end] => destruct x
         end;
  reflexivity.

(** *** The generators

    Only the loaders, the model in training mode and the construction of
    the model draw random numbers; reporting and evaluating the model do
    not. *)

Section Generators.

Local Abbreviation keeps := (preserves (unchanged w_rng)).

Lemma rng_called {A} c (a : A) : keeps (called c a).
Proof. unfold called. same_field. Qed.

Lemma rng_print r : keeps (print r).
Proof. unfold print. same_field. Qed.

Lemma rng_time_time : keeps time_time.
Proof. unfold time_time. same_field. Qed.

Lemma rng_write p mode recs : keeps (write_file p mode recs).
Proof. unfold write_file. same_field. Qed.

Lemma rng_py_div x n : keeps (py_div x n).
Proof. unfold py_div. destruct (n =? 0); [apply unchanged_raise | apply unchanged_ret]. Qed.

Lemma rng_f1 t q : keeps (sk_f1_score t q).
Proof.
  unfold sk_f1_score. destruct (f1_score t q); [apply unchanged_ret | apply unchanged_raise].
Qed.

Lemma rng_prfs t q : keeps (sk_precision_recall_fscore_support t q).
Proof.
  unfold sk_precision_recall_fscore_support.
  destruct (precision_recall_fscore_support t q);
    [apply unchanged_ret | apply unchanged_raise].
Qed.

Lemma rng_log_block cfg epoch nb idx l a : keeps (log_block cfg epoch nb idx l a).
Proof.
  unfold log_block.
  apply unchanged_bind; [apply rng_time_time | intros now].
  apply unchanged_bind; [apply rng_py_div | intros cur_loss].
  apply unchanged_bind; [apply rng_f1 | intros cur_f1].
  apply unchanged_bind; [apply rng_write | intros _].
  apply unchanged_bind; [apply rng_print | intros _].
  apply unchanged_bind; [apply rng_time_time | intros start].
  apply unchanged_ret.
Qed.

Lemma rng_eval_batch m item buf : keeps (eval_batch m item buf).
Proof.
  unfold eval_batch. apply unchanged_bind; [apply rng_called | intros out].
  repeat case_match; (apply unchanged_ret || apply unchanged_raise).
Qed.

(** A pass over the test loader draws the base seed of its iterator and
    nothing else, however it ends. *)
Lemma eval_loop_rng m ds w w' r :
  eval_loop m ds w = (w', r) -> w_rng w' = (base_seed (w_rng w)).2.
Proof.
  unfold eval_loop. rewrite (bind_step _ _ _ _ _ (iter_loader_sequential ds w)).
  intros H. apply (run_unchanged w_rng) in H; [exact H|].
  apply unchanged_bind.
  - apply unchanged_for_each. intros. apply rng_eval_batch.
  - intros buf. case_match; (apply unchanged_ret || apply unchanged_raise).
Qed.

Lemma eval_epoch_rng cfg ds n epoch m a w w' u :
  eval_epoch cfg ds n epoch m a w = (w', Ok u) ->
  w_rng w' = (base_seed (w_rng w)).2.
Proof.
  unfold eval_epoch. intros H.
  apply bind_ok in H as (w1 & b & Hloop & H).
  apply eval_loop_rng in Hloop. rewrite <- Hloop.
  apply (run_unchanged w_rng) in H; [exact H|].
  apply unchanged_bind; [apply rng_prfs | intros report].
  apply unchanged_bind; [apply rng_write | intros _].
  repeat (apply unchanged_bind; [apply rng_print | intros _]).
  apply rng_print.
Qed.

End Generators.

(** ** The accumulators of the batch loop *)

Lemma log_block_acc cfg epoch nb idx l a w w' a' :
  log_block cfg epoch nb idx l a w = (w', Ok a') ->
  loss_all a' = loss_all a ++ [train_loss a] /\
  train_loss a' = f_of_Z 0 /\
  train_pred a' = train_pred a /\
  train_true a' = train_true a.
Proof.
  unfold log_block. intros H.
  apply bind_ok in H as (w1 & now & _ & H).
  apply bind_ok in H as (w2 & cur_loss & _ & H).
  apply bind_ok in H as (w3 & cur_f1 & _ & H).
  apply bind_ok in H as (w4 & [] & _ & H).
  apply bind_ok in H as (w5 & [] & _ & H).
  apply bind_ok in H as (w6 & start & _ & H).
  injection H as _ <-. simpl. auto.
Qed.

(** One pass of the loop body: the learner and the generators move on by
    one step of the specification; the predictions and labels of the batch
    are appended; the batch loss is added to the running loss, which at the
    end of an interval is recorded and reset. *)
Lemma train_batch_acc cfg epoch nb idx x y st w w' st' :
  train_batch cfg epoch nb (idx, (x, y)) st w = (w', Ok st') ->
  st'.1 = sr_learner (spec_step st.1 x y (w_rng w)) /\
  w_rng w' = sr_rng (spec_step st.1 x y (w_rng w)) /\
  train_pred st'.2 =
    train_pred st.2 ++ map argmax (sr_out (spec_step st.1 x y (w_rng w))) /\
  train_true st'.2 = train_true st.2 ++ map argmax y /\
  if at_interval idx
  then loss_all st'.2 =
         loss_all st.2 ++
         [f_add (train_loss st.2)
                (loss_item (sr_loss (spec_step st.1 x y (w_rng w))))] /\
       train_loss st'.2 = f_of_Z 0
  else loss_all st'.2 = loss_all st.2 /\
       train_loss st'.2 =
         f_add (train_loss st.2)
               (loss_item (sr_loss (spec_step st.1 x y (w_rng w)))).
Proof.
  unfold train_batch. cbn [fst snd]. intros H.
  rewrite (bind_step _ _ _ _ _ (train_step_spec st.1 x y w)) in H.
  cbn [fst snd] in H.
  destruct (at_interval idx).
  - apply bind_ok in H as (w2 & a' & Hlog & H). injection H as <- <-.
    pose proof (run_unchanged w_rng _ _ _ _ (rng_log_block _ _ _ _ _ _) Hlog)
      as Hrng.
    apply log_block_acc in Hlog as (Hl & Ht & Hp & Hy). cbn [fst snd] in *.
    rewrite Hp, Hy, Hl, Ht, Hrng. now repeat split.
  - injection H as <- <-. now repeat split.
Qed.

(** The batch loop: the learner and the generators it ends with are those
    of the steps of the specification taken batch by batch, and the
    recorded losses are the interval sums of the losses of those steps. *)
Lemma train_loop_spec cfg epoch nb batches k st w w' st' :
  for_each (train_batch cfg epoch nb) (enumerate_from k batches) st w
    = (w', Ok st') ->
  (st'.1, w_rng w') = spec_train batches (st.1, w_rng w) /\
  loss_all st'.2 =
    loss_all st.2 ++
    interval_sums k (train_loss st.2) (spec_losses batches st.1 (w_rng w)).
Proof.
  revert k st w. induction batches as [|[x y] batches IH]; intros k st w H.
  - injection H as <- <-. split; [reflexivity | simpl; now rewrite app_nil_r].
  - cbn [enumerate_from for_each] in H.
    apply bind_ok in H as (w1 & st1 & Hb & H).
    apply train_batch_acc in Hb as (Hl & Hr & _ & _ & Hb).
    apply IH in H as [Hst Hloss]. split.
    + rewrite Hst, Hl, Hr. reflexivity.
    + rewrite Hloss, Hl, Hr. unfold spec_losses.
      cbn [spec_steps map interval_sums fst snd].
      destruct (at_interval k); destruct Hb as [Ha Ht];
        rewrite Ha, Ht; [now rewrite <- app_assoc | done].
Qed.

Lemma spec_losses_length batches l r :
  length (spec_losses batches l r) = length batches.
Proof.
  unfold spec_losses. rewrite length_map.
  revert l r. induction batches as [|b bs IH]; intros l r; [done|].
  cbn [spec_steps length]. now rewrite IH.
Qed.

Lemma train_loop_loss_all cfg epoch nb batches k st w w' st' :
  for_each (train_batch cfg epoch nb) (enumerate_from k batches) st w
    = (w', Ok st') ->
  exists items,
    length items = length batches /\
    loss_all st'.2 = loss_all st.2 ++ interval_sums k (train_loss st.2) items.
Proof.
  intros H. apply train_loop_spec in H as [_ H].
  eexists. split; [apply spec_losses_length | exact H].
Qed.

(** ** The logging intervals in closed form *)

Lemma at_interval_inside (k : nat) : (k mod 100 <> 0)%nat -> at_interval k = false.
Proof.
  intros H. unfold at_interval, log_interval.
  apply Nat.eqb_neq in H. now rewrite H.
Qed.

Lemma at_interval_end (k : nat) :
  (k mod 100 = 0)%nat -> (0 < k)%nat -> at_interval k = true.
Proof.
  intros Hm Hp. unfold at_interval, log_interval. apply andb_true_intro.
  split; [now apply Nat.eqb_eq | now apply Nat.ltb_lt].
Qed.

(** Batches none of which ends an interval only add to the running loss. *)
Lemma interval_sums_skip (k : nat) (cur : scalar) (pre rest : list scalar) :
  (forall i, (i < length pre)%nat -> at_interval (k + i) = false) ->
  interval_sums k cur (pre ++ rest) =
  interval_sums (k + length pre) (fold_left f_add pre cur) rest.
Proof.
  revert k cur. induction pre as [|x pre IH]; intros k cur Hno.
  - simpl. now rewrite Nat.add_0_r.
  - cbn [app interval_sums length fold_left].
    pose proof (Hno O ltac:(simpl; lia)) as H0. rewrite Nat.add_0_r in H0.
    rewrite H0, IH.
    + f_equal. lia.
    + intros i Hi. replace (S k + i)%nat with (k + S i)%nat by lia.
      apply Hno. simpl. lia.
Qed.

Lemma inside_block (j i : nat) :
  (i < 99)%nat -> at_interval (100 * j + 1 + i) = false.
Proof.
  intros Hi. apply at_interval_inside.
  replace (100 * j + 1 + i)%nat with ((1 + i) + j * 100)%nat by lia.
  rewrite Nat.Div0.mod_add, Nat.mod_small; lia.
Qed.

(** From the batch after a report on, the next report comes 100 batches
    later, if the epoch has that many left. *)
Lemma interval_sums_block (j : nat) (cur : scalar) (items : list scalar) :
  interval_sums (100 * j + 1) cur items =
  if (100 <=? length items)%nat
  then fold_left f_add (take 100 items) cur ::
       interval_sums (100 * S j + 1) (f_of_Z 0) (drop 100 items)
  else [].
Proof.
  destruct (Nat.leb_spec 100 (length items)) as [Hlen|Hlen].
  - destruct (lookup_lt_is_Some_2 items 99 ltac:(lia)) as [x Hx].
    assert (Hsplit : items = take 99 items ++ x :: drop 100 items).
    { rewrite <- (take_drop 99 items) at 1. f_equal.
      now apply drop_S. }
    rewrite Hsplit at 1. rewrite interval_sums_skip.
    2:{ intros i Hi. rewrite length_take in Hi. apply inside_block. lia. }
    rewrite length_take, Nat.min_l by lia.
    cbn [interval_sums]. rewrite at_interval_end.
    2:{ replace (100 * j + 1 + 99)%nat with (0 + S j * 100)%nat by lia.
        now rewrite Nat.Div0.mod_add. }
    2:{ lia. }
    f_equal.
    + rewrite (take_S_r items 99 x Hx), fold_left_app. reflexivity.
    + f_equal. lia.
  - rewrite <- (app_nil_r items), interval_sums_skip; [reflexivity|].
    intros i Hi. apply inside_block. lia.
Qed.

Lemma interval_sums_blocks (n j : nat) (items : list scalar) :
  (length items / 100)%nat = n ->
  interval_sums (100 * j + 1) (f_of_Z 0) items =
  map (fun i => fold_left f_add (take 100 (drop (100 * i) items)) (f_of_Z 0))
      (seq 0 n).
Proof.
  revert j items. induction n as [|n IH]; intros j items Hn.
  - rewrite interval_sums_block.
    destruct (Nat.leb_spec 100 (length items)) as [Hlen|Hlen]; [|reflexivity].
    assert (1 <= length items / 100)%nat
      by (apply Nat.div_le_lower_bound; lia). lia.
  - assert (Hlen : (100 <= length items)%nat).
    { destruct (Nat.le_gt_cases 100 (length items)) as [|Hlt]; [done|].
      rewrite Nat.div_small in Hn by done. discriminate. }
    rewrite interval_sums_block.
    destruct (Nat.leb_spec 100 (length items)) as [_|?]; [|lia].
    cbn [seq map]. f_equal.
    rewrite (IH (S j) (drop 100 items)).
    + rewrite <- seq_shift, map_map. apply map_ext. intros i.
      rewrite drop_drop. do 3 f_equal. lia.
    + rewrite length_drop.
      replace (length items) with ((length items - 100) + 1 * 100)%nat in Hn
        by lia.
      rewrite Nat.div_add in Hn by lia. lia.
Qed.

(** The recorded losses of an epoch, interval by interval. *)
Lemma interval_sums_closed (items : list scalar) :
  interval_sums 0 (f_of_Z 0) items =
  map (fun j => fold_left f_add (interval_items j items) (f_of_Z 0))
      (seq 0 (intervals (length items))).
Proof.
  destruct items as [|x0 rest]; [reflexivity|].
  cbn [interval_sums]. change (at_interval 0) with false. cbv iota.
  change 1%nat with (100 * 0 + 1)%nat at 1.
  unfold intervals. cbn [length].
  replace (S (length rest) - 1)%nat with (length rest) by lia.
  rewrite interval_sums_block.
  destruct (Nat.leb_spec 100 (length rest)) as [Hlen|Hlen].
  - destruct (length rest / 100)%nat as [|n] eqn:Hn.
    { assert (1 <= length rest / 100)%nat
        by (apply Nat.div_le_lower_bound; lia). lia. }
    cbn [seq map]. f_equal.
    rewrite (interval_sums_blocks n 1 (drop 100 rest)).
    + rewrite <- seq_shift, map_map. apply map_ext. intros i.
      unfold interval_items. rewrite drop_drop.
      replace (100 * S i + 1)%nat with (S (100 * S i)) by lia.
      cbn [drop]. do 3 f_equal. lia.
    + rewrite length_drop.
      replace (length rest) with ((length rest - 100) + 1 * 100)%nat in Hn
        by lia.
      rewrite Nat.div_add in Hn by lia. lia.
  - rewrite Nat.div_small by lia. reflexivity.
Qed.

(** ** An epoch of training *)

Lemma time_time_run w :
  time_time w =
  ({| w_fs := w_fs w; w_dirs := w_dirs w; w_rng := w_rng w;
      w_clock := w_clock w; w_tick := S (w_tick w);
      w_stdout := w_stdout w; w_calls := w_calls w |},
   Ok (w_clock w (w_tick w))).
Proof. reflexivity. Qed.

(** What the training half of an epoch comes to when it completes: the
    batches are those of one shuffled pass, the learner and the generators
    are those of the steps of the specification, the recorded losses are
    the interval sums of the batch losses, and the last line printed is
    the epoch loss. *)
Lemma train_epoch_inv cfg ds epochs epoch l w w' la :
  train_epoch cfg ds epochs epoch l w = (w', Ok la) ->
  (la.1, w_rng w') =
    spec_train (spec_batches ds (w_rng w)).1 (l, (spec_batches ds (w_rng w)).2) /\
  loss_all la.2 =
    interval_sums 0 (f_of_Z 0)
      (spec_losses (spec_batches ds (w_rng w)).1 l (spec_batches ds (w_rng w)).2) /\
  w_stdout w' =
    w_stdout (for_each (train_batch cfg epoch (loader_len (length ds)))
                (enumerate (spec_batches ds (w_rng w)).1)
                (l, fresh_acc (w_clock w (w_tick w)))
                (iter_loader true ds (time_time w).1).1).1 ++
    [REpochLoss epoch epochs
       (f_div (py_sum (loss_all la.2))
              (f_of_Z (Z.of_nat (loader_len (length ds)))))].
Proof.
  intros H. unfold train_epoch in H.
  rewrite (bind_step _ _ _ _ _ (time_time_run w)) in H.
  set (w1 := {| w_fs := w_fs w |}) in *.
  rewrite (bind_step _ _ _ _ _ (iter_loader_shuffled_run ds w1)) in H.
  change (w_rng w1) with (w_rng w) in H.
  rewrite time_time_run. cbn [fst]. fold w1.
  rewrite iter_loader_shuffled_run. cbn [fst].
  change (w_rng w1) with (w_rng w).
  set (w2 := add_call _ _) in *.
  apply bind_ok in H as (w3 & la' & Hloop & H).
  apply bind_ok in H as (w4 & epoch_loss & Hdiv & H).
  apply bind_ok in H as (w5 & [] & Hprint & H).
  injection H as <- <-.
  unfold py_div in Hdiv.
  destruct (Z.of_nat (loader_len (length ds)) =? 0); [discriminate|].
  injection Hdiv as <- <-. injection Hprint as <-.
  unfold enumerate in *. rewrite Hloop.
  apply train_loop_spec in Hloop as [Hst Hloss].
  cbn [fst snd fresh_acc loss_all train_loss app] in Hst, Hloss.
  repeat split; [exact Hst | exact Hloss].
Qed.

(** C6. The loss printed at the end of the training half of an epoch is
    the sum, taken from zero in the order recorded, of the per-interval
    accumulated losses, divided by the number of batches of the training
    loader; and the per-interval losses are the sums, from zero, of
    [loss.item()] over the batches of each logging interval: the first 101
    batches, then 100 batches each, a last stretch that reaches no report
    being left out.  This holds whatever the data, the model and the
    arithmetic of floats. *)
Theorem epoch_loss_is_sum_over_batches (cfg : config)
    (ds : list (window * row)) (epochs epoch : Z) (l : learner)
    (w w' : world) (la : learner * acc) :
  train_epoch cfg ds epochs epoch l w = (w', Ok la) ->
  let nb := loader_len (length ds) in
  let batches := (spec_batches ds (w_rng w)).1 in
  let items := spec_losses batches l (spec_batches ds (w_rng w)).2 in
  (iter_loader true ds w).2 = Ok batches /\
  length items = nb /\
  loss_all la.2 =
    map (fun j => fold_left f_add (interval_items j items) (f_of_Z 0))
        (seq 0 (intervals nb)) /\
  last (w_stdout w') =
    Some (REpochLoss epoch epochs
            (f_div (fold_left f_add (loss_all la.2) (f_of_Z 0))
                   (f_of_Z (Z.of_nat nb)))).
Proof.
  intros H nb batches items.
  assert (Hlen : length items = nb).
  { unfold items. rewrite spec_losses_length. unfold batches, nb.
    eapply iter_loader_shuffled_length.
    rewrite (iter_loader_shuffled_run ds w). reflexivity. }
  apply train_epoch_inv in H as (_ & Hloss & Hout).
  split; [now rewrite iter_loader_shuffled_run|].
  split; [exact Hlen|]. split.
  - fold batches in Hloss. fold items in Hloss.
    now rewrite Hloss, interval_sums_closed, Hlen.
  - rewrite Hout. apply last_snoc.
Qed.

(** ** The run, epoch by epoch *)

Lemma run_epoch_spec cfg tr te n epochs epoch l w w' l' :
  run_epoch cfg tr te n epochs epoch l w = (w', Ok l') ->
  (l', w_rng w') = spec_epoch tr (l, w_rng w).
Proof.
  unfold run_epoch. intros H.
  apply bind_ok in H as (w1 & la & Htrain & H).
  apply bind_ok in H as (w2 & u & Heval & H).
  injection H as <- <-.
  apply train_epoch_inv in Htrain as (Hst & _ & _).
  apply eval_epoch_rng in Heval.
  unfold spec_epoch. cbn [fst snd]. rewrite <- Hst. cbn [fst snd].
  now rewrite Heval.
Qed.

Lemma epochs_spec cfg tr te n epochs es l w w' l' :
  for_each (run_epoch cfg tr te n epochs) es l w = (w', Ok l') ->
  (l', w_rng w') = spec_epochs (length es) tr (l, w_rng w).
Proof.
  revert l w. induction es as [|e es IH]; intros l w H.
  - now injection H as <- <-.
  - cbn [for_each] in H. apply bind_ok in H as (w1 & l1 & He & H).
    apply IH in H. apply run_epoch_spec in He.
    cbn [length spec_epochs]. now rewrite <- He.
Qed.

Lemma scheduler_steps_app cs ds :
  scheduler_steps (cs ++ ds) = (scheduler_steps cs + scheduler_steps ds)%nat.
Proof. unfold scheduler_steps. now rewrite List.filter_app, length_app. Qed.

(** Scheduler steps are optimisation calls, one in every whole step. *)
Lemma scheduler_steps_step_calls cs :
  scheduler_steps (step_calls cs) = scheduler_steps cs.
Proof.
  unfold scheduler_steps, step_calls.
  induction cs as [|c cs IH]; [done|].
  destruct c as [| | | | |[]| | | | | |]; simpl; rewrite ?IH; reflexivity.
Qed.

Lemma scheduler_steps_whole k : scheduler_steps (whole_steps k) = k.
Proof.
  induction k as [|k IH]; [done|].
  change (whole_steps (S k)) with (step_pattern ++ whole_steps k).
  rewrite scheduler_steps_app, IH. reflexivity.
Qed.

Lemma OneCycleLR_ok o max_lr epochs spe w w' so :
  OneCycleLR o max_lr epochs spe w = (w', Ok so) ->
  one_cycle_lr o max_lr epochs spe = Some so /\
  w_calls w' = w_calls w ++ [COneCycleLR epochs spe].
Proof.
  unfold OneCycleLR, bind, called.
  destruct (one_cycle_lr o max_lr epochs spe); [|discriminate].
  now intros [= <- <-].
Qed.

(** C3. Every training step is the step of the specification: forward
    pass, loss, zeroing of gradients, backpropagation, clipping of the
    gradient norm to 0.5, optimizer step, scheduler step, called in that
    order and each applied to the outcome of the one before.  In a run
    that completes, the loop runs the epochs 0, 1, ..., epochs - 1 from a
    learner whose scheduler is the one-cycle schedule built for [epochs]
    epochs of [len(train_loader)] steps; the learner it ends with is the
    one those steps give, batch after batch and epoch after epoch; the
    optimisation calls in the trace are the seven calls of a step repeated
    once per batch of every epoch; and the scheduler steps made number
    epochs times [len(train_loader)], the budget the schedule was built
    for. *)
Theorem training_steps_in_order (cfg : config) (w w' : world)
    (x : list feature) (y : list row) :
  w_fs w !! training_path cfg = Some [NpzBlob x y] ->
  main cfg w = (w', Ok tt) ->
  let tr := DataGenerator x y (window_size cfg) in
  let nb := loader_len (length tr) in
  let n := Z.to_nat (epoch cfg) in
  (forall l bx by_ w1,
     train_step l bx by_ w1 =
     (add_calls step_pattern
        (with_rng (sr_rng (spec_step l bx by_ (w_rng w1))) w1),
      Ok (sr_learner (spec_step l bx by_ (w_rng w1)),
          sr_out (spec_step l bx by_ (w_rng w1)),
          sr_loss (spec_step l bx by_ (w_rng w1))))) /\
  exists model so te n_test w0 l_end,
    one_cycle_lr (adam model (lr cfg) 0) (lr cfg) (epoch cfg) nb = Some so /\
    for_each (run_epoch cfg tr te n_test (epoch cfg))
      (map Z.of_nat (seq 0 n))
      {| net := model; optimizer := so.2; scheduler := so.1 |} w0
      = (w', Ok l_end) /\
    (l_end, w_rng w') =
      spec_epochs n tr
        ({| net := model; optimizer := so.2; scheduler := so.1 |}, w_rng w0) /\
    step_calls (w_calls w') = step_calls (w_calls w) ++ whole_steps (n * nb) /\
    COneCycleLR (epoch cfg) nb ∈ w_calls w' /\
    scheduler_steps (w_calls w') = (scheduler_steps (w_calls w) + n * nb)%nat.
Proof.
  intros Hdata Hrun tr nb n. split; [apply train_step_spec|].
  rewrite (main_opened _ _ (main_ok_opened _ _ _ _ Hrun)) in Hrun.
  set (w00 := with_fs _ w) in Hrun.
  assert (Hfs0 : w_fs w00 !! training_path cfg = Some [NpzBlob x y]).
  { unfold w00. simpl.
    rewrite lookup_insert_ne; [done|]. intros Heq. symmetry in Heq.
    now apply training_path_not_result in Heq. }
  assert (Hc0 : w_calls w00 = w_calls w) by reflexivity.
  unfold script_body in Hrun. rename Hrun into H.
  apply bind_ok in H as (w1 & [] & H1 & H).
  apply bind_ok in H as (w2 & training_data & H2 & H).
  apply bind_ok in H as (w3 & testing_data & H3 & H).
  apply bind_ok in H as (w4 & model & H4 & H).
  apply bind_ok in H as (w5 & model' & H5 & H).
  apply bind_ok in H as (w6 & so & H6 & H).
  apply bind_ok in H as (w7 & l' & H7 & H).
  injection H as <-.
  (* the training archive read is the one given *)
  pose proof (run_stays no_steps (result_path cfg) _ _ _ _
                (preserves_seeds _ _) H1) as [Ho1 _ _ _].
  apply np_load_ok in H2 as Hx.
  rewrite Ho1, Hfs0 in Hx by apply training_path_not_result.
  injection Hx as Hx Hy.
  rewrite <- Hx, <- Hy in *. fold tr in H6, H7. fold nb in H6.
  rewrite range_from_zero in H7. fold n in H7.
  pose proof (OneCycleLR_ok _ _ _ _ _ _ _ H6) as [Hso Hsched].
  exists model', so,
    (DataGenerator testing_data.1 testing_data.2 (window_size cfg)),
    (length testing_data.1), w6, l'.
  split; [exact Hso|]. split; [exact H7|]. split.
  { apply epochs_spec in H7.
    now rewrite length_map, length_seq in H7. }
  (* nothing before the loop makes an optimisation call *)
  apply (quiet_run _ (result_path cfg)) in H1; [|apply preserves_seeds; tc_solve].
  apply (quiet_run _ (result_path cfg)) in H2; [|apply preserves_np_load; tc_solve].
  apply (quiet_run _ (result_path cfg)) in H3; [|apply preserves_np_load; tc_solve].
  apply (quiet_run _ (result_path cfg)) in H4; [|apply preserves_create_model; tc_solve].
  apply (quiet_run _ (result_path cfg)) in H5; [|apply preserves_load_pretrained; tc_solve].
  apply (quiet_run _ (result_path cfg)) in H6; [|apply preserves_OneCycleLR; tc_solve].
  pose proof (run_stays only_whole_steps (result_path cfg) _ _ _ _
    (preserves_for_each _ _ _ _ _
       (fun e l => preserves_run_epoch cfg _ _ _ _ e l)) H7)
    as [_ _ [cs [Hgrow _]] _].
  apply epochs_steps in H7. rewrite length_map, length_seq in H7.
  fold nb in H7.
  assert (Hsteps : step_calls (w_calls w7) =
                   step_calls (w_calls w) ++ whole_steps (n * nb))
    by congruence.
  split; [exact Hsteps|]. split.
  - rewrite Hgrow, Hsched. set_solver.
  - rewrite <- (scheduler_steps_step_calls (w_calls w7)), Hsteps.
    now rewrite scheduler_steps_app, scheduler_steps_step_calls,
      scheduler_steps_whole.
Qed.

(** At the end of a logging interval the running loss is back to zero, but
    the running predictions and labels are not: they keep every row
    accumulated since the start of the epoch, the current batch included. *)
Lemma train_batch_at_interval cfg epoch nb idx x y st w w' st' :
  (idx mod log_interval = 0)%nat -> (0 < idx)%nat ->
  train_batch cfg epoch nb (idx, (x, y)) st w = (w', Ok st') ->
  train_loss st'.2 = f_of_Z 0 /\
  train_pred st'.2 =
    train_pred st.2 ++ map argmax (forward_train (net st.1) x (w_rng w)).1 /\
  train_true st'.2 = train_true st.2 ++ map argmax y.
Proof.
  intros Hmod Hpos H. apply train_batch_acc in H as (_ & _ & Hp & Hy & H).
  assert (Hat : at_interval idx = true).
  { unfold at_interval. apply andb_true_intro. split.
    - now apply Nat.eqb_eq.
    - now apply Nat.ltb_lt. }
  rewrite Hat in H. destruct H as [_ Ht].
  split; [exact Ht|]. split; [exact Hp | exact Hy].
Qed.

(** ** Evaluation *)

Lemma eval_rest m batches k y_pred y_true w :
  (0 < k)%nat ->
  for_each (eval_batch m) (enumerate_from k batches) (Some (y_pred, y_true)) w =
  (add_calls (replicate (length batches) (CForward false)) w,
   Ok (Some (y_pred ++ concat (map (fun b => forward_eval m b.1) batches),
             y_true ++ concat (map snd batches)))).
Proof.
  revert k y_pred y_true w.
  induction batches as [|b batches IH]; intros k y_pred y_true w Hk.
  - simpl. now rewrite add_calls_nil, !app_nil_r.
  - cbn [enumerate_from for_each]. unfold eval_batch at 1, bind, called.
    cbn [fst snd]. destruct (Nat.eqb_spec k 0) as [->|_]; [lia|].
    unfold ret at 1. rewrite IH by lia.
    cbn [length replicate map concat].
    now rewrite add_call_calls, add_calls_app, <- !app_assoc.
Qed.

Lemma eval_loop_runs m ds w :
  ds <> [] ->
  eval_loop m ds w =
  (add_calls (replicate (loader_len (length ds)) (CForward false))
     (with_rng (base_seed (w_rng w)).2 w),
   Ok (eval_predictions m ds, map snd ds)).
Proof.
  intros Hne. unfold eval_loop.
  rewrite (bind_step _ _ _ _ _ (iter_loader_sequential ds w)).
  generalize (with_rng (base_seed (w_rng w)).2 w). clear w. intros w.
  pose proof (chunks_length ds) as Hlen. pose proof (chunks_concat ds) as Hcat.
  unfold eval_predictions.
  destruct (chunks batch_size ds) as [|b bs] eqn:Hch.
  { simpl in Hcat. congruence. }
  cbn [map enumerate enumerate_from for_each].
  unfold eval_batch at 1, bind at 2, called. cbn [fst snd Nat.eqb].
  unfold ret at 1, bind. rewrite eval_rest by lia.
  rewrite length_map, add_call_calls, add_calls_app. unfold ret.
  rewrite <- Hlen. cbn [length replicate app].
  do 3 f_equal.
  - cbn [map concat]. f_equal. f_equal.
    rewrite map_map. reflexivity.
  - rewrite <- Hcat. cbn [concat]. rewrite map_app. f_equal.
    rewrite map_map, concat_map. reflexivity.
Qed.

Lemma eval_predictions_length m ds : length (eval_predictions m ds) = length ds.
Proof.
  unfold eval_predictions. rewrite <- (chunks_concat ds) at 2.
  induction (chunks batch_size ds) as [|b bs IH]; [done|].
  cbn [map concat]. rewrite !length_app, IH, forward_eval_rows, length_map.
  reflexivity.
Qed.

Lemma eval_predictions_rowwise m ds (f : window -> row) :
  (forall xs, forward_eval m xs = map f xs) ->
  eval_predictions m ds = map (fun s => f s.1) ds.
Proof.
  intros Hf. unfold eval_predictions. rewrite <- (chunks_concat ds) at 2.
  induction (chunks batch_size ds) as [|b bs IH]; [done|].
  cbn [map concat]. rewrite IH, Hf, map_app, map_map. reflexivity.
Qed.

(** C4. On a non-empty test set the evaluation loop ends with a
    prediction buffer and a label buffer of one row per sample, in the
    order of the test set (the loader does not shuffle); both are then
    turned into class indices by arg-max, and those are what precision,
    recall and F1 are computed from and, the result file being there to
    append to, reported. *)
Theorem eval_buffers_in_order (cfg : config) (ds : list (window * row))
    (n_test : nat) (epoch : Z) (m : module) (a : acc) (w : world) :
  ds <> [] ->
  let y_pred := eval_predictions m ds in
  let y_true := map snd ds in
  (exists w1, eval_loop m ds w = (w1, Ok (y_pred, y_true))) /\
  length y_pred = length ds /\
  length y_true = length ds /\
  (forall f, (forall xs, forward_eval m xs = map f xs) ->
             y_pred = map (fun s => f s.1) ds) /\
  (forall report,
     parent_exists (w_dirs w) (result_path cfg) = true ->
     precision_recall_fscore_support
       (map argmax y_true) (map argmax y_pred) = Some report ->
     exists w',
       eval_epoch cfg ds n_test epoch m a w = (w', Ok tt) /\
       content (w_fs w') (result_path cfg) =
       content (w_fs w) (result_path cfg) ++
       map Rec [RNumEpochs epoch; RNumTest n_test; RPrecision report.1.1;
                RRecall report.1.2; RF1 report.2; RAllLoss (loss_all a);
                RBlank]).
Proof.
  intros Hne y_pred y_true. repeat split.
  - eexists. now apply eval_loop_runs.
  - apply eval_predictions_length.
  - apply length_map.
  - intros f Hf. now apply eval_predictions_rowwise.
  - intros report Hdir Hrep. unfold eval_epoch.
    rewrite (bind_step _ _ _ _ _ (eval_loop_runs m ds w Hne)).
    cbn [fst snd]. fold y_pred y_true.
    unfold sk_precision_recall_fscore_support at 1. rewrite Hrep.
    rewrite (bind_step _ _ _ _ report eq_refl).
    erewrite bind_step; [|now apply write_file_ok].
    eexists. split; [reflexivity|].
    unfold content. simpl. now rewrite lookup_insert_eq.
Qed.

(** ** The result file *)

(** The path of the result file is made of seven of the arguments; the
    checkpoint path and the window size play no part in it. *)
Lemma result_path_fields (c1 c2 : config) :
  log_name c1 = log_name c2 ->
  pretrained_log_name c1 = pretrained_log_name c2 ->
  tune_mode c1 = tune_mode c2 ->
  num_layers c1 = num_layers c2 ->
  adapter_size c1 = adapter_size c2 ->
  lr c1 = lr c2 ->
  epoch c1 = epoch c2 ->
  result_path c1 = result_path c2.
Proof.
  intros H1 H2 H3 H4 H5 H6 H7. unfold result_path, suffix.
  now rewrite H1, H2, H3, H4, H5, H6, H7.
Qed.

(** C7, as amended.  No path of the file system other than the result
    file changes in a run, however it ends; in particular no checkpoint is
    written.  The run starts the result file afresh: whatever it held
    before, at the end it holds the line with the arguments followed by the
    records appended since.  That is so whenever the file can be opened at
    all; when its directory is missing the run stops at the first open and
    nothing is persisted. *)
Theorem result_file_fresh_then_appended (cfg : config) (w : world) :
  let w' := (main cfg w).1 in
  (forall q, q <> result_path cfg -> w_fs w' !! q = w_fs w !! q) /\
  (parent_exists (w_dirs w) (result_path cfg) = true ->
   exists l, w_fs w' !! result_path cfg = Some (Rec (RArgs cfg) :: map Rec l)) /\
  (parent_exists (w_dirs w) (result_path cfg) = false ->
   main cfg w = (w, Raise (FileNotFoundError (result_path cfg)))).
Proof.
  intros w'. unfold w'. clear w'.
  destruct (parent_exists (w_dirs w) (result_path cfg)) eqn:Hd.
  - rewrite (main_opened _ _ Hd). set (w0 := with_fs _ w).
    destruct (preserves_script_body cfg w0) as [Ho [l Ha] _ _].
    assert (H0 : w_fs w0 = <[result_path cfg := [Rec (RArgs cfg)]]> (w_fs w))
      by done.
    split; [|split; [intros _ | discriminate]].
    + intros q Hq. rewrite Ho, H0 by done. now rewrite lookup_insert_ne.
    + exists l. unfold content in Ha. rewrite H0, lookup_insert_eq in Ha.
      simpl in Ha. destruct (w_fs (script_body cfg w0).1 !! result_path cfg).
      * now rewrite <- Ha.
      * discriminate.
  - rewrite (main_not_opened _ _ Hd). split; [done|].
    split; [discriminate | done].
Qed.

(** ** Two runs on the same inputs *)

(** After the seeding block the generators do not depend on what they
    were before. *)
Lemma seeds_run w : fix_all_random_seeds w = (with_rng seeded w, Ok tt).
Proof. reflexivity. Qed.

Section TwoRuns.
Context (p : string).

Lemma rel_ret {A} (RA : A -> A -> Prop) a1 a2 :
  RA a1 a2 -> rel p RA (ret a1) (ret a2).
Proof. intros H w1 w2 Hw. now split. Qed.

Lemma rel_raise {A} (RA : A -> A -> Prop) e : rel p RA (raise e) (raise e).
Proof. intros w1 w2 Hw. now split. Qed.

Lemma rel_bind {A B} (RA : A -> A -> Prop) (RB : B -> B -> Prop)
    (m1 m2 : M A) (f1 f2 : A -> M B) :
  rel p RA m1 m2 ->
  (forall a1 a2, RA a1 a2 -> rel p RB (f1 a1) (f2 a2)) ->
  rel p RB (bind m1 f1) (bind m2 f2).
Proof.
  intros Hm Hf w1 w2 Hw. unfold bind. destruct (Hm w1 w2 Hw) as [Hw' Hr].
  destruct (m1 w1) as [w1' [a1|e1]], (m2 w2) as [w2' [a2|e2]];
    simpl in *; try done.
  now apply Hf.
Qed.

Lemma rel_bind_eq {A B} (RB : B -> B -> Prop) (m : M A) (f1 f2 : A -> M B) :
  rel p eq m m -> (forall a, rel p RB (f1 a) (f2 a)) ->
  rel p RB (bind m f1) (bind m f2).
Proof.
  intros Hm Hf. apply (rel_bind eq); [done|]. intros a ? <-. apply Hf.
Qed.

Lemma rel_for_each {A S} (RS : S -> S -> Prop) (body : A -> S -> M S) l s1 s2 :
  (forall a s1 s2, RS s1 s2 -> rel p RS (body a s1) (body a s2)) ->
  RS s1 s2 -> rel p RS (for_each body l s1) (for_each body l s2).
Proof.
  intros Hb. revert s1 s2. induction l as [|a l IH]; intros s1 s2 Hs; simpl.
  - now apply rel_ret.
  - eapply rel_bind; [now apply Hb | exact IH].
Qed.

Lemma low_eq_add_call c w1 w2 :
  low_eq p w1 w2 -> low_eq p (add_call c w1) (add_call c w2).
Proof.
  intros [Hr Hc Hf Ht1 Ht2 Hd]. split; simpl; [done | now rewrite Hc | done..].
Qed.

Lemma low_eq_with_rng r w1 w2 :
  low_eq p w1 w2 -> low_eq p (with_rng r w1) (with_rng r w2).
Proof. intros [Hr Hc Hf Ht1 Ht2 Hd]. now split. Qed.

(** The leaves. *)
Lemma rel_called {A} (c : call) (a : A) : rel p eq (called c a) (called c a).
Proof.
  intros w1 w2 Hw. split; [|done]. now apply low_eq_add_call.
Qed.

Lemma rel_print r1 r2 : rel p eq (print r1) (print r2).
Proof. intros w1 w2 [Hr Hc Hf Ht1 Ht2 Hd]. split; [|done]. now split. Qed.

Lemma rel_time_time : rel p (fun _ _ => True) time_time time_time.
Proof. intros w1 w2 [Hr Hc Hf Ht1 Ht2 Hd]. split; [|done]. now split. Qed.

Lemma rel_append recs1 recs2 :
  rel p eq (write_file p ModeA recs1) (write_file p ModeA recs2).
Proof.
  intros w1 w2 Hw. pose proof Hw as [Hr Hc Hf (r1 & l1 & Ht1) (r2 & l2 & Ht2) Hd].
  unfold write_file. rewrite Hd.
  destruct (parent_exists (w_dirs w2) p); [|now split].
  split; [|done]. split; simpl; try done.
  - intros q Hq. rewrite !lookup_insert_ne by done. now apply Hf.
  - rewrite lookup_insert_eq, Ht1. simpl. now eexists _, _.
  - rewrite lookup_insert_eq, Ht2. simpl. now eexists _, _.
Qed.

Lemma rel_np_load q : rel p eq (np_load q) (np_load q).
Proof.
  intros w1 w2 Hw0. pose proof (low_eq_add_call (CNpLoad q) _ _ Hw0) as Hw.
  destruct Hw0 as [Hr Hc Hf (r1 & l1 & Ht1) (r2 & l2 & Ht2) Hd]. unfold np_load.
  destruct (decide (q = p)) as [->|Hq].
  - rewrite Ht1, Ht2. now split.
  - rewrite (Hf q Hq).
    destruct (w_fs w2 !! q) as [[|[r|x y|c] [|? ?]]|]; now split.
Qed.

Lemma rel_torch_load q : rel p eq (torch_load q) (torch_load q).
Proof.
  intros w1 w2 Hw0. pose proof (low_eq_add_call (CTorchLoad q) _ _ Hw0) as Hw.
  destruct Hw0 as [Hr Hc Hf (r1 & l1 & Ht1) (r2 & l2 & Ht2) Hd]. unfold torch_load.
  destruct (decide (q = p)) as [->|Hq].
  - rewrite Ht1, Ht2. now split.
  - rewrite (Hf q Hq).
    destruct (w_fs w2 !! q) as [[|[r|x y|c] [|? ?]]|]; now split.
Qed.

Lemma rel_draw_base_seed : rel p eq draw_base_seed draw_base_seed.
Proof.
  intros w1 w2 Hw. unfold draw_base_seed. rewrite (low_rng _ _ _ Hw).
  split; [|done]. now apply low_eq_with_rng.
Qed.

Lemma rel_sampler b n : rel p eq (sampler b n) (sampler b n).
Proof.
  destruct b; [|now apply rel_ret].
  intros w1 w2 Hw. unfold sampler. rewrite (low_rng _ _ _ Hw).
  destruct (randperm n (w_rng w2)) as [order r]. split; [|done].
  now apply low_eq_add_call, low_eq_with_rng.
Qed.

Lemma rel_create_model cfg : rel p eq (create_model cfg) (create_model cfg).
Proof.
  intros w1 w2 Hw. unfold create_model. rewrite (low_rng _ _ _ Hw).
  destruct (Model _ _ _ _ _ _ _ _ (w_rng w2)) as [m r]. split; [|done].
  now apply low_eq_with_rng.
Qed.

Lemma rel_model_call m x : rel p eq (model_call m x) (model_call m x).
Proof.
  intros w1 w2 Hw. unfold model_call. rewrite (low_rng _ _ _ Hw).
  destruct (forward_train m x (w_rng w2)) as [out r]. split; [|done].
  now apply low_eq_add_call, low_eq_with_rng.
Qed.

End TwoRuns.

Ltac rel_leaf :=
  first
    [ apply rel_called | apply rel_print | apply rel_append | apply rel_np_load
    | apply rel_torch_load | apply rel_draw_base_seed | apply rel_sampler
    | apply rel_create_model
    | apply rel_model_call | apply rel_raise | apply rel_ret; reflexivity ].

Ltac rel_auto :=
  repeat first
    [ rel_leaf
    | apply rel_bind_eq; [| intros ?]
    | case_match ].

Section TwoRunsScript.
Context (cfg : config).

Local Abbreviation same := (rel (result_path cfg) eq).

Lemma rel_iter_loader b ds : same (iter_loader b ds) (iter_loader b ds).
Proof. unfold iter_loader. rel_auto. Qed.

Lemma rel_load_pretrained model :
  same (load_pretrained cfg model) (load_pretrained cfg model).
Proof. unfold load_pretrained, dict_get, dict_pop, load_state_dict. rel_auto. Qed.

Lemma rel_OneCycleLR o max_lr epochs spe :
  same (OneCycleLR o max_lr epochs spe) (OneCycleLR o max_lr epochs spe).
Proof. unfold OneCycleLR. rel_auto. Qed.

Lemma rel_train_step l x y : same (train_step l x y) (train_step l x y).
Proof. unfold train_step. rel_auto. Qed.

Lemma rel_eval_epoch ds n epoch m a1 a2 :
  loss_all a1 = loss_all a2 ->
  same (eval_epoch cfg ds n epoch m a1) (eval_epoch cfg ds n epoch m a2).
Proof.
  intros Ha. unfold eval_epoch, eval_loop, sk_precision_recall_fscore_support.
  rewrite Ha.
  apply rel_bind_eq.
  - apply rel_bind_eq; [apply rel_iter_loader | intros batches].
    apply rel_bind_eq; [|intros buf; rel_auto].
    apply rel_for_each; [|done]. intros item b1 ? <-.
    unfold eval_batch. rel_auto.
  - intros b. rel_auto.
Qed.

Lemma rel_log_block epoch nb idx l a1 a2 :
  acc_sim a1 a2 ->
  rel (result_path cfg) acc_sim
    (log_block cfg epoch nb idx l a1) (log_block cfg epoch nb idx l a2).
Proof.
  intros (H1 & H2 & H3 & H4 & H5). unfold log_block, py_div, sk_f1_score.
  rewrite H1, H2, H3, H4, H5.
  eapply rel_bind; [apply rel_time_time | intros now1 now2 _].
  case_match; [apply rel_raise|].
  apply rel_bind_eq; [rel_auto | intros cur_loss].
  apply rel_bind_eq; [rel_auto | intros cur_f1].
  eapply rel_bind; [apply rel_append | intros ? ? _].
  apply rel_bind_eq; [apply rel_print | intros _].
  eapply rel_bind; [apply rel_time_time | intros s1 s2 _].
  apply rel_ret. now repeat split.
Qed.

Lemma rel_train_batch epoch nb item s1 s2 :
  state_sim s1 s2 ->
  rel (result_path cfg) state_sim
    (train_batch cfg epoch nb item s1) (train_batch cfg epoch nb item s2).
Proof.
  intros [Hl (H1 & H2 & H3 & H4 & H5)]. unfold train_batch.
  rewrite Hl, H1, H2, H3, H4, H5.
  apply rel_bind_eq; [apply rel_train_step | intros r].
  case_match.
  - eapply rel_bind.
    + apply rel_log_block. now repeat split.
    + intros a1 a2 Ha. apply rel_ret. now split.
  - apply rel_ret. now repeat split.
Qed.

Lemma rel_train_epoch ds epochs epoch l :
  rel (result_path cfg) state_sim
    (train_epoch cfg ds epochs epoch l) (train_epoch cfg ds epochs epoch l).
Proof.
  unfold train_epoch.
  eapply rel_bind; [apply rel_time_time | intros s1 s2 _].
  apply rel_bind_eq; [apply rel_iter_loader | intros batches].
  eapply rel_bind.
  - apply rel_for_each.
    + intros item st1 st2 Hst. now apply rel_train_batch.
    + now repeat split.
  - intros la1 la2 [Hl Ha]. pose proof Ha as (H1 & _).
    unfold py_div. rewrite H1. case_match; [apply rel_raise|].
    apply rel_bind_eq; [rel_auto | intros epoch_loss].
    apply rel_bind_eq; [apply rel_print | intros _].
    apply rel_ret. now split.
Qed.

Lemma rel_run_epoch tr te n epochs epoch l :
  same (run_epoch cfg tr te n epochs epoch l) (run_epoch cfg tr te n epochs epoch l).
Proof.
  unfold run_epoch.
  eapply rel_bind; [apply rel_train_epoch | intros la1 la2 [Hl (Ha & _)]].
  rewrite Hl.
  eapply rel_bind; [now apply rel_eval_epoch | intros ? ? _].
  now apply rel_ret.
Qed.

End TwoRunsScript.

Lemma rel_result_eq {A} (r1 r2 : result A) : rel_result eq r1 r2 -> r1 = r2.
Proof. destruct r1, r2; simpl; congruence || done. Qed.

(** C8. Two runs of the script with the same arguments on file systems
    that hold the same inputs, in the same directories, make the same
    framework calls in the same order; in particular the shuffling sampler
    yields the same batches in every epoch, and the runs end the same way.
    The runs may differ in the state of the generators before seeding, in
    the clock and in what the result file held. *)
Theorem shuffle_order_deterministic (cfg : config)
    (fs1 fs2 : gmap string (list chunk)) (dirs : gset string) (r1 r2 : rngs)
    (clock1 clock2 : nat -> scalar) :
  (forall q, q <> result_path cfg -> fs1 !! q = fs2 !! q) ->
  let run1 := main cfg (boot fs1 dirs r1 clock1) in
  let run2 := main cfg (boot fs2 dirs r2 clock2) in
  batch_orders (w_calls run1.1) = batch_orders (w_calls run2.1) /\
  w_calls run1.1 = w_calls run2.1 /\
  run1.2 = run2.2.
Proof.
  intros Hfs.
  destruct (parent_exists dirs (result_path cfg)) eqn:Hdir.
  2:{ rewrite !main_not_opened by exact Hdir. done. }
  rewrite !main_opened by exact Hdir.
  unfold script_body.
  rewrite !(bind_step _ _ _ _ _ (seeds_run _)).
  match goal with
  | |- context [w_calls (?m ?wa).1 = w_calls (?m' ?wb).1] =>
      assert (Hrel : rel (result_path cfg) eq m m');
      [| assert (Hlow : low_eq (result_path cfg) wa wb) ]
  end.
  - apply rel_bind_eq; [apply rel_np_load | intros training_data].
    apply rel_bind_eq; [apply rel_np_load | intros testing_data].
    apply rel_bind_eq; [apply rel_create_model | intros model].
    apply rel_bind_eq; [apply rel_load_pretrained | intros model'].
    apply rel_bind_eq; [apply rel_OneCycleLR | intros so].
    apply rel_bind_eq; [|intros l; now apply rel_ret].
    apply rel_for_each; [|done].
    intros e l1 ? <-. apply rel_run_epoch.
  - split; simpl; try done.
    + intros q Hq. rewrite !lookup_insert_ne by done. now apply Hfs.
    + rewrite lookup_insert_eq. now eexists _, _.
    + rewrite lookup_insert_eq. now eexists _, _.
  - destruct (Hrel _ _ Hlow) as [[_ Hc _ _ _] Hr].
    apply rel_result_eq in Hr. now rewrite Hc.
Qed.

(** * Further properties of the script *)

Lemma main_others (cfg : config) (w : world) (q : string) :
  q <> result_path cfg -> w_fs (main cfg w).1 !! q = w_fs w !! q.
Proof.
  intros Hq. destruct (parent_exists (w_dirs w) (result_path cfg)) eqn:Hd.
  - rewrite (main_opened _ _ Hd).
    destruct (preserves_script_body cfg
                (with_fs (fun fs => <[result_path cfg := [Rec (RArgs cfg)]]> fs) w))
      as [Ho _ _ _].
    rewrite Ho by done. simpl. now rewrite lookup_insert_ne.
  - now rewrite (main_not_opened _ _ Hd).
Qed.

(** No run creates or removes a directory. *)
Lemma main_dirs (cfg : config) (w : world) : w_dirs (main cfg w).1 = w_dirs w.
Proof.
  destruct (parent_exists (w_dirs w) (result_path cfg)) eqn:Hd.
  - rewrite (main_opened _ _ Hd).
    now destruct (preserves_script_body cfg
                (with_fs (fun fs => <[result_path cfg := [Rec (RArgs cfg)]]> fs) w))
      as [_ _ _ ->].
  - now rewrite (main_not_opened _ _ Hd).
Qed.

(** ** The input files *)

(** X1. The script never touches its inputs: the result file cannot be one
    of the two archives, whatever the arguments, and after a run, however
    it ends, both archives hold what they held; so does the checkpoint
    unless it was given the path of the result file. *)
Theorem inputs_untouched (cfg : config) (w : world) :
  let w' := (main cfg w).1 in
  w_fs w' !! training_path cfg = w_fs w !! training_path cfg /\
  w_fs w' !! testing_path cfg = w_fs w !! testing_path cfg /\
  (load_path cfg <> result_path cfg ->
   w_fs w' !! load_path cfg = w_fs w !! load_path cfg).
Proof.
  split; [|split].
  - apply main_others, training_path_not_result.
  - apply main_others, testing_path_not_result.
  - apply main_others.
Qed.

(** X2. Without the training archive, a run that gets past the first
    open of the result file (the directory of that file exists) stops at
    line 59 with [FileNotFoundError]: by then the result file has been
    started afresh and the generators seeded, and nothing else has
    happened. *)
Theorem missing_training_archive (cfg : config) (w : world) :
  parent_exists (w_dirs w) (result_path cfg) = true ->
  w_fs w !! training_path cfg = None ->
  exists w',
    main cfg w = (w', Raise (FileNotFoundError (training_path cfg))) /\
    w_fs w' = <[result_path cfg := [Rec (RArgs cfg)]]> (w_fs w) /\
    w_calls w' = w_calls w ++ [CNpLoad (training_path cfg)] /\
    w_rng w' = seeded /\
    w_stdout w' = w_stdout w.
Proof.
  intros Hdir Hnone. eexists. split.
  - rewrite (main_opened _ _ Hdir). unfold script_body.
    rewrite (bind_step _ _ _ _ _ (seeds_run _)).
    apply bind_raises. unfold np_load. cbn [w_fs with_rng with_fs].
    rewrite lookup_insert_ne by (apply not_eq_sym, training_path_not_result).
    rewrite Hnone. reflexivity.
  - now repeat split.
Qed.

(** X3. With the training archive in place but no testing archive, a run
    that gets past the first open of the result file stops at line 62 with
    [FileNotFoundError], before the model is built: the generators are
    still as the seeding left them. *)
Theorem missing_testing_archive (cfg : config) (w : world)
    (x : list feature) (y : list row) :
  parent_exists (w_dirs w) (result_path cfg) = true ->
  w_fs w !! training_path cfg = Some [NpzBlob x y] ->
  w_fs w !! testing_path cfg = None ->
  exists w',
    main cfg w = (w', Raise (FileNotFoundError (testing_path cfg))) /\
    w_fs w' = <[result_path cfg := [Rec (RArgs cfg)]]> (w_fs w) /\
    w_calls w' =
      w_calls w ++ [CNpLoad (training_path cfg); CNpLoad (testing_path cfg)] /\
    w_rng w' = seeded.
Proof.
  intros Hdir Htrain Htest. eexists. split.
  - rewrite (main_opened _ _ Hdir). unfold script_body.
    rewrite (bind_step _ _ _ _ _ (seeds_run _)).
    erewrite bind_step.
    2:{ unfold np_load. cbn [w_fs with_rng with_fs].
        rewrite lookup_insert_ne by (apply not_eq_sym, training_path_not_result).
        rewrite Htrain. reflexivity. }
    apply bind_raises. unfold np_load. cbn [w_fs with_rng with_fs add_call].
    rewrite lookup_insert_ne by (apply not_eq_sym, testing_path_not_result).
    rewrite Htest. reflexivity.
  - split; [reflexivity|]. split; [|reflexivity].
    simpl. now rewrite <- app_assoc.
Qed.

(** ** Checkpoint loading: what can go wrong, and what never changes *)

Lemma torch_load_ok p w w' c :
  torch_load p w = (w', Ok c) ->
  w_fs w !! p = Some [CkptBlob c] /\ w' = add_call (CTorchLoad p) w.
Proof.
  unfold torch_load. intros H.
  destruct (w_fs w !! p) as [[|[r|x y|c'] [|? ?]]|]; try discriminate.
  now injection H as <- <-.
Qed.

Lemma torch_load_raise p w w' e :
  torch_load p w = (w', Raise e) -> w' = add_call (CTorchLoad p) w.
Proof.
  unfold torch_load. intros H.
  destruct (w_fs w !! p) as [[|[r|x y|c'] [|? ?]]|]; try discriminate;
    now injection H as <- _.
Qed.

Lemma dict_pop_ok {A} k (d : gmap string A) w w' d' :
  dict_pop k d w = (w', Ok d') -> is_Some (d !! k) /\ d' = delete k d /\ w' = w.
Proof.
  unfold dict_pop. destruct (d !! k) eqn:Hk; [|discriminate].
  intros H. injection H as <- <-. eauto.
Qed.

Lemma dict_pop_raise {A} k (d : gmap string A) w w' e :
  dict_pop k d w = (w', Raise e) -> w' = w.
Proof.
  unfold dict_pop. destruct (d !! k); [discriminate|]. now intros [= <- _].
Qed.

Lemma load_state_dict_ok net strict model w w' mr :
  load_state_dict net strict model w = (w', Ok mr) ->
  mr.1 = map_imap (load_param net) model /\
  w' = add_call (CLoadStateDict (elements (dom net)) strict) w.
Proof.
  unfold load_state_dict, bind, called. repeat case_match; try discriminate.
  now intros [= <- <-].
Qed.

Lemma load_state_dict_raise net strict model w w' e :
  load_state_dict net strict model w = (w', Raise e) ->
  w' = add_call (CLoadStateDict (elements (dom net)) strict) w.
Proof.
  unfold load_state_dict, bind, called. repeat case_match; try discriminate;
    now intros [= <- _].
Qed.

(** What a successful load amounts to: nothing at all in "random" mode,
    otherwise the non-strict copy of the checkpoint minus its head. *)
Lemma load_pretrained_ok_inv (cfg : config) (model model' : module) (w w' : world) :
  load_pretrained cfg model w = (w', Ok model') ->
  (pretrained_log_name cfg = "random" /\ model' = model /\ w' = w) \/
  (exists ck net,
     w_fs w !! load_path cfg = Some [CkptBlob ck] /\
     ck !! "net" = Some net /\
     model' = map_imap (load_param (without_head net)) model).
Proof.
  unfold load_pretrained.
  destruct (String.eqb_spec (pretrained_log_name cfg) "random") as [Hr|Hr]; simpl.
  - intros [= <- <-]. now left.
  - intros H. right.
    apply bind_ok in H as (w1 & ck & Hload & H).
    apply bind_ok in H as (w2 & net & Hget & H).
    apply bind_ok in H as (w3 & net1 & Hp1 & H).
    apply bind_ok in H as (w4 & net2 & Hp2 & H).
    apply bind_ok in H as (w5 & mr & Hsd & H).
    apply bind_ok in H as (w6 & [] & _ & H).
    injection H as _ <-.
    apply torch_load_ok in Hload as [Hfile _].
    unfold dict_get in Hget. destruct (ck !! "net") as [n|] eqn:Hnet; [|discriminate].
    injection Hget as _ ->.
    apply dict_pop_ok in Hp1 as (_ & -> & _).
    apply dict_pop_ok in Hp2 as (_ & -> & _).
    apply load_state_dict_ok in Hsd as [-> _].
    exists ck, net. auto.
Qed.

(** X4. Without the checkpoint file, loading raises [FileNotFoundError]
    at line 93; the attempt to read is all that has happened. *)
Theorem missing_checkpoint_file (cfg : config) (model : module) (w : world) :
  pretrained_log_name cfg <> "random" ->
  w_fs w !! load_path cfg = None ->
  load_pretrained cfg model w =
  (add_call (CTorchLoad (load_path cfg)) w,
   Raise (FileNotFoundError (load_path cfg))).
Proof.
  intros Hname Hnone. unfold load_pretrained. rewrite (eqb_ne _ _ Hname). simpl.
  apply bind_raises. unfold torch_load. now rewrite Hnone.
Qed.

(** X5. A checkpoint without the field [net] makes line 94 raise
    [KeyError]; no key is popped, nothing is loaded or reported. *)
Theorem checkpoint_without_net (cfg : config) (model : module) (w : world)
    (ck : gmap string state_dict) :
  pretrained_log_name cfg <> "random" ->
  w_fs w !! load_path cfg = Some [CkptBlob ck] ->
  ck !! "net" = None ->
  load_pretrained cfg model w =
  (add_call (CTorchLoad (load_path cfg)) w, Raise (KeyError "net")).
Proof.
  intros Hname Hfile Hnet. unfold load_pretrained.
  rewrite (eqb_ne _ _ Hname). simpl.
  rewrite (bind_step _ _ w (add_call (CTorchLoad (load_path cfg)) w) ck).
  2:{ unfold torch_load. now rewrite Hfile. }
  apply bind_raises. unfold dict_get. now rewrite Hnet.
Qed.

(** X6. Non-strict loading tolerates keys on one side only, not sizes that
    differ: if a retained checkpoint entry and the model parameter of the
    same name have different shapes, loading raises [RuntimeError] and the
    report of lines 98-100 is not written. *)
Theorem size_mismatch_raises (cfg : config) (model : module) (w : world)
    (ck : gmap string state_dict) (net : state_dict)
    (k : string) (t : tensor) (p : param) :
  pretrained_log_name cfg <> "random" ->
  w_fs w !! load_path cfg = Some [CkptBlob ck] ->
  ck !! "net" = Some net ->
  is_Some (net !! head_weight) ->
  is_Some (net !! head_bias) ->
  without_head net !! k = Some t ->
  model !! k = Some p ->
  shape t <> shape (p_data p) ->
  exists w',
    load_pretrained cfg model w = (w', Raise RuntimeError) /\
    w_fs w' = w_fs w.
Proof.
  intros Hname Hfile Hnet [tw Hw] [tb Hb] Hk Hm Hshape.
  assert (Hbad : forallb (shape_ok (without_head net)) (map_to_list model) = false).
  { destruct (forallb _ _) eqn:Hall; [|done]. exfalso. apply Hshape.
    eapply shapes_ok_spec; eauto. }
  eexists. split.
  - unfold load_pretrained. rewrite (eqb_ne _ _ Hname). simpl.
    rewrite (bind_step _ _ w (add_call (CTorchLoad (load_path cfg)) w) ck).
    2:{ unfold torch_load. now rewrite Hfile. }
    unfold dict_get at 1. rewrite Hnet.
    rewrite (bind_step _ _ _ _ net eq_refl).
    unfold dict_pop at 1. fold head_weight. rewrite Hw.
    rewrite (bind_step _ _ _ _ (delete head_weight net) eq_refl).
    unfold dict_pop at 1. fold head_bias.
    rewrite lookup_delete_ne by discriminate. rewrite Hb.
    rewrite (bind_step _ _ _ _ (without_head net) eq_refl).
    apply bind_raises. unfold load_state_dict, bind, called.
    rewrite Hbad. reflexivity.
  - reflexivity.
Qed.

(** X7. The loading report is written only after a successful load: if
    loading raises, for whatever reason (the open of the result file for
    the report included), the file system, the console and the generators
    are as they were. *)
Theorem load_failure_writes_nothing (cfg : config) (model : module)
    (w w' : world) (e : exn) :
  load_pretrained cfg model w = (w', Raise e) ->
  w_fs w' = w_fs w /\ w_stdout w' = w_stdout w /\ w_rng w' = w_rng w.
Proof.
  unfold load_pretrained. case_match; [|discriminate].
  unfold bind.
  destruct (torch_load (load_path cfg) w) as [w1 [ck|e1]] eqn:Hload.
  2:{ intros [= <- _]. apply torch_load_raise in Hload as ->. done. }
  apply torch_load_ok in Hload as [_ ->].
  unfold dict_get. destruct (ck !! "net") as [net|]; [|now intros [= <- _]].
  unfold ret at 1.
  destruct (dict_pop "module.fc1.weight" net _) as [w2 [net1|e1]] eqn:Hp1.
  2:{ intros [= <- _]. apply dict_pop_raise in Hp1 as ->. done. }
  apply dict_pop_ok in Hp1 as (_ & _ & ->).
  destruct (dict_pop "module.fc1.bias" net1 _) as [w3 [net2|e2]] eqn:Hp2.
  2:{ intros [= <- _]. apply dict_pop_raise in Hp2 as ->. done. }
  apply dict_pop_ok in Hp2 as (_ & _ & ->).
  destruct (load_state_dict net2 false model _) as [w4 [mr|e3]] eqn:Hsd.
  2:{ intros [= <- _]. apply load_state_dict_raise in Hsd as ->. done. }
  apply load_state_dict_ok in Hsd as [_ ->].
  destruct (write_file _ _ _ _) as [w5 [u|e4]] eqn:Hw; [discriminate|].
  intros [= <- _]. apply write_file_raise in Hw as (_ & -> & _). done.
Qed.

(** X8. Loading a checkpoint changes parameter data only: the model has
    the same parameters after as before, each with its trainability flag
    unchanged, so the tuning mode set on lines 80-86 survives the load. *)
Theorem load_keeps_trainability (cfg : config) (model model' : module)
    (w w' : world) :
  load_pretrained cfg model w = (w', Ok model') ->
  forall k, p_requires_grad <$> model' !! k = p_requires_grad <$> model !! k.
Proof.
  intros H k.
  apply load_pretrained_ok_inv in H as [(_ & -> & _)|(ck & net & _ & _ & ->)];
    [done|].
  rewrite load_state_dict_lookup.
  destruct (model !! k) as [p|]; [|done]. simpl.
  now destruct (without_head net !! k).
Qed.

(** X9. Whatever the checkpoint holds under the two head keys, the model's
    own head entries come out of a successful load exactly as they went
    in: the output layer is never restored from the checkpoint. *)
Theorem head_never_loaded (cfg : config) (model model' : module) (w w' : world) :
  load_pretrained cfg model w = (w', Ok model') ->
  model' !! head_weight = model !! head_weight /\
  model' !! head_bias = model !! head_bias.
Proof.
  intros H.
  apply load_pretrained_ok_inv in H as [(_ & -> & _)|(ck & net & _ & _ & ->)];
    [done|].
  rewrite !load_state_dict_lookup, without_head_weight, without_head_bias.
  split; [now destruct (model !! head_weight) | now destruct (model !! head_bias)].
Qed.

(** ** Evaluation: edge cases and footprint *)



(** ** The logging intervals of an epoch *)

Lemma at_interval_small (k : nat) : (k < 100)%nat -> at_interval k = false.
Proof.
  intros Hk. unfold at_interval, log_interval. destruct k as [|k]; [reflexivity|].
  rewrite Nat.mod_small by lia. reflexivity.
Qed.

Lemma train_batch_quiet cfg epoch nb k x y st w w' st' :
  (k < 100)%nat ->
  train_batch cfg epoch nb (k, (x, y)) st w = (w', Ok st') ->
  loss_all st'.2 = loss_all st.2 /\ f1_all st'.2 = f1_all st.2 /\
  w_fs w' = w_fs w /\ w_stdout w' = w_stdout w.
Proof.
  intros Hk. unfold train_batch. cbn [fst snd].
  rewrite (at_interval_small k Hk).
  destruct (train_step_runs st.1 x y w) as [r Hr].
  rewrite (bind_step _ _ _ _ _ Hr). intros [= <- <-]. now repeat split.
Qed.

Lemma train_loop_quiet cfg epoch nb batches k st w w' st' :
  (k + length batches <= 100)%nat ->
  for_each (train_batch cfg epoch nb) (enumerate_from k batches) st w
    = (w', Ok st') ->
  loss_all st'.2 = loss_all st.2 /\ f1_all st'.2 = f1_all st.2 /\
  w_fs w' = w_fs w /\ w_stdout w' = w_stdout w.
Proof.
  revert k st w. induction batches as [|[x y] batches IH]; intros k st w Hk H.
  - now injection H as <- <-.
  - simpl in Hk. cbn [enumerate_from for_each] in H.
    apply bind_ok in H as (w1 & st1 & Hb & H).
    apply train_batch_quiet in Hb as (Hl & Hf & Hfs & Hout); [|lia].
    apply IH in H as (Hl' & Hf' & Hfs' & Hout'); [|lia].
    repeat split; congruence.
Qed.

(** X12. An epoch of at most 100 batches never reaches a logging interval:
    no progress line is written or printed, [loss_all] stays empty, and the
    epoch loss printed on line 159 is 0 / len(train_loader), whatever the
    losses of the batches were. *)
Theorem short_epoch_reports_zero_loss (cfg : config)
    (ds : list (window * row)) (epochs epoch : Z) (l : learner)
    (w w' : world) (la : learner * acc) :
  train_epoch cfg ds epochs epoch l w = (w', Ok la) ->
  (loader_len (length ds) <= 100)%nat ->
  loss_all la.2 = [] /\
  f1_all la.2 = [] /\
  w_fs w' = w_fs w /\
  w_stdout w' =
    w_stdout w ++
    [REpochLoss epoch epochs
       (f_div (f_of_Z 0) (f_of_Z (Z.of_nat (loader_len (length ds)))))].
Proof.
  intros H Hshort. unfold train_epoch in H.
  apply bind_ok in H as (w1 & start & Ht & H).
  apply bind_ok in H as (w2 & batches & Hit & H).
  apply bind_ok in H as (w3 & la' & Hloop & H).
  apply bind_ok in H as (w4 & epoch_loss & Hdiv & H).
  apply bind_ok in H as (w5 & [] & Hprint & H).
  injection H as <- <-.
  pose proof (iter_loader_shuffled_length _ _ _ _ Hit) as Hlen.
  apply train_loop_quiet in Hloop as (Hl & Hf & Hfs & Hout);
    [|simpl; rewrite Hlen; exact Hshort].
  simpl in Hl, Hf.
  assert (Hfs2 : w_fs w2 = w_fs w /\ w_stdout w2 = w_stdout w).
  { injection Ht as <- _. rewrite iter_loader_shuffled_run in Hit.
    now injection Hit as <- _. }
  destruct Hfs2 as [Hfs2 Hout2].
  unfold py_div in Hdiv. rewrite Hl in Hdiv.
  destruct (Z.of_nat _ =? 0); [discriminate|].
  injection Hdiv as <- <-. injection Hprint as <-. simpl.
  repeat split; try congruence.
  rewrite Hout, Hout2. reflexivity.
Qed.

Lemma at_interval_step (k : nat) :
  (k / 100 - (k - 1) / 100)%nat = if at_interval k then 1%nat else 0%nat.
Proof.
  unfold at_interval, log_interval.
  destruct (Nat.eqb_spec (k mod 100) 0) as [Hm|Hm];
    destruct (Nat.ltb_spec 0 k) as [Hp|Hp]; cbn [andb].
  - pose proof (Nat.div_mod_eq k 100). pose proof (Nat.div_mod_eq (k - 1) 100).
    pose proof (Nat.mod_upper_bound (k - 1) 100). lia.
  - replace k with O by lia. reflexivity.
  - pose proof (Nat.div_mod_eq k 100). pose proof (Nat.div_mod_eq (k - 1) 100).
    pose proof (Nat.mod_upper_bound (k - 1) 100).
    pose proof (Nat.mod_upper_bound k 100). lia.
  - replace k with O by lia. reflexivity.
Qed.

Lemma interval_sums_length (k : nat) (cur : scalar) (items : list scalar) :
  length (interval_sums k cur items) =
  ((k + length items - 1) / 100 - (k - 1) / 100)%nat.
Proof.
  revert k cur. induction items as [|x items IH]; intros k cur.
  - simpl. rewrite Nat.add_0_r. lia.
  - cbn [interval_sums length].
    pose proof (at_interval_step k) as Hs.
    assert (Hmono : ((k - 1) / 100 <= k / 100)%nat)
      by (apply Nat.Div0.div_le_mono; lia).
    assert (Hmono2 : (k / 100 <= (k + S (length items) - 1) / 100)%nat)
      by (apply Nat.Div0.div_le_mono; lia).
    destruct (at_interval k); cbn [length]; rewrite IH;
      replace (S k + length items - 1)%nat with (k + S (length items) - 1)%nat by lia;
      replace (S k - 1)%nat with k by lia; lia.
Qed.

(** X13. An epoch of [nb] batches records one interval loss at each batch
    index 100, 200, ... below [nb], that is (nb - 1) div 100 of them. *)
Theorem loss_all_length (cfg : config) (ds : list (window * row))
    (epochs epoch : Z) (l : learner) (w w' : world) (la : learner * acc) :
  train_epoch cfg ds epochs epoch l w = (w', Ok la) ->
  length (loss_all la.2) = ((loader_len (length ds) - 1) / 100)%nat.
Proof.
  intros H. unfold train_epoch in H.
  apply bind_ok in H as (w1 & start & Ht & H).
  apply bind_ok in H as (w2 & batches & Hit & H).
  apply bind_ok in H as (w3 & la' & Hloop & H).
  apply bind_ok in H as (w4 & epoch_loss & Hdiv & H).
  apply bind_ok in H as (w5 & [] & Hprint & H).
  injection H as _ <-.
  apply iter_loader_shuffled_length in Hit.
  apply train_loop_loss_all in Hloop as (items & Hlen & ->).
  simpl. rewrite interval_sums_length, Hlen, Hit. simpl. lia.
Qed.

(** ** Runs that share a result file *)

Lemma main_result_content (cfg : config) (w : world) :
  parent_exists (w_dirs w) (result_path cfg) = true ->
  exists l,
    w_fs (main cfg w).1 !! result_path cfg = Some (Rec (RArgs cfg) :: map Rec l).
Proof.
  intros Hd. rewrite (main_opened _ _ Hd).
  set (w0 := with_fs _ w).
  destruct (preserves_script_body cfg w0) as [_ [l Ha] _ _].
  exists l. unfold content in Ha. unfold w0 at 2 in Ha. simpl in Ha.
  rewrite lookup_insert_eq in Ha. simpl in Ha.
  destruct (w_fs (script_body cfg w0).1 !! result_path cfg); [|discriminate].
  simpl in Ha. now rewrite Ha.
Qed.

(** X14. The name of the result file is made of seven of the nine
    arguments: runs that differ only in the window size or in the
    checkpoint path write to the same file, and, the directory of that file
    being there, after the later run nothing of what the earlier one wrote
    is left in it. *)
Theorem later_run_discards_earlier_output (c1 c2 : config) (w : world) :
  parent_exists (w_dirs w) (result_path c1) = true ->
  log_name c1 = log_name c2 ->
  pretrained_log_name c1 = pretrained_log_name c2 ->
  tune_mode c1 = tune_mode c2 ->
  num_layers c1 = num_layers c2 ->
  adapter_size c1 = adapter_size c2 ->
  lr c1 = lr c2 ->
  epoch c1 = epoch c2 ->
  result_path c1 = result_path c2 /\
  exists l,
    w_fs (main c2 (main c1 w).1).1 !! result_path c1
    = Some (Rec (RArgs c2) :: map Rec l).
Proof.
  intros Hd H1 H2 H3 H4 H5 H6 H7.
  pose proof (result_path_fields c1 c2 H1 H2 H3 H4 H5 H6 H7) as Hp.
  split; [exact Hp|]. rewrite Hp. apply main_result_content.
  now rewrite main_dirs, <- Hp.
Qed.

(** ** The metrics blocks of a run *)

Section Marks.
Context (p : string).

Lemma same_marks_files w w' : w_fs w' = w_fs w -> same_marks p w w'.
Proof. unfold same_marks. now intros ->. Qed.

Lemma same_marks_trans w1 w2 w3 :
  same_marks p w1 w2 -> same_marks p w2 w3 -> same_marks p w1 w3.
Proof. unfold same_marks. congruence. Qed.

Lemma marks_ret {A} (a : A) : preserves (same_marks p) (ret a).
Proof. intros w. now apply same_marks_files. Qed.

Lemma marks_raise {A} e : preserves (same_marks p) (raise (A:=A) e).
Proof. intros w. now apply same_marks_files. Qed.

Lemma marks_bind {A B} (m : M A) (f : A -> M B) :
  preserves (same_marks p) m -> (forall a, preserves (same_marks p) (f a)) ->
  preserves (same_marks p) (bind m f).
Proof.
  intros Hm Hf w. unfold bind. specialize (Hm w).
  destruct (m w) as [w1 [a|e]]; simpl in *; [|done].
  eapply same_marks_trans; [exact Hm | apply Hf].
Qed.

Lemma marks_for_each {A S} (body : A -> S -> M S) (l : list A) (s : S) :
  (forall a s, preserves (same_marks p) (body a s)) ->
  preserves (same_marks p) (for_each body l s).
Proof.
  intros Hb. revert s. induction l as [|a l IH]; intros s; simpl.
  - apply marks_ret.
  - apply marks_bind; [apply Hb | apply IH].
Qed.

(** An operation that leaves every file alone. *)
Lemma marks_untouched {A} (m : M A) :
  (forall w, w_fs (m w).1 = w_fs w) -> preserves (same_marks p) m.
Proof. intros H w. apply same_marks_files, H. Qed.

(** Appending records none of which opens a metrics block. *)
Lemma marks_append recs :
  epoch_marks (map Rec recs) = [] ->
  preserves (same_marks p) (write_file p ModeA recs).
Proof.
  intros Hnone w. unfold same_marks, write_file, content.
  destruct (parent_exists _ _); [|reflexivity]. simpl.
  rewrite lookup_insert_eq. simpl. unfold epoch_marks in *.
  now rewrite flat_map_app, Hnone, app_nil_r.
Qed.

Lemma run_marks {A} (m : M A) w w' r :
  preserves (same_marks p) m -> m w = (w', r) -> same_marks p w w'.
Proof. intros H Hr. specialize (H w). now rewrite Hr in H. Qed.

End Marks.

Ltac untouched :=
  apply marks_untouched; intros ?; simpl;
  repeat match goal with
         | |- context [match ?x with _ => _ end] => destruct x
         end;
  reflexivity.

Ltac marks :=
  repeat first
    [ apply marks_ret | apply marks_raise
    | apply marks_append; reflexivity
    | apply marks_bind; [| intros ?]
    | case_match ].

Section MarksScript.
Context (cfg : config).

Local Abbreviation keeps := (preserves (same_marks (result_path cfg))).

Lemma marks_called {A} c (a : A) : keeps (called c a).
Proof. unfold called. untouched. Qed.

Lemma marks_print r : keeps (print r).
Proof. unfold print. untouched. Qed.

Lemma marks_time_time : keeps time_time.
Proof. unfold time_time. untouched. Qed.

Lemma marks_np_load q : keeps (np_load q).
Proof. unfold np_load. untouched. Qed.

Lemma marks_torch_load q : keeps (torch_load q).
Proof. unfold torch_load. untouched. Qed.

Lemma marks_seeds : keeps fix_all_random_seeds.
Proof. apply marks_untouched. reflexivity. Qed.

Lemma marks_create_model : keeps (create_model cfg).
Proof. unfold create_model. untouched. Qed.

Lemma marks_iter_loader b ds : keeps (iter_loader b ds).
Proof.
  unfold iter_loader.
  apply marks_bind; [unfold draw_base_seed; untouched | intros _].
  apply marks_bind.
  - unfold sampler. destruct b; [untouched | apply marks_ret].
  - intros order. marks.
Qed.

Lemma marks_load_pretrained model : keeps (load_pretrained cfg model).
Proof.
  unfold load_pretrained, dict_get, dict_pop, load_state_dict.
  case_match; [|apply marks_ret].
  apply marks_bind; [apply marks_torch_load | intros ck].
  case_match; [|marks].
  apply marks_bind; [apply marks_ret | intros net0].
  case_match; [|marks].
  apply marks_bind; [apply marks_ret | intros net1].
  case_match; [|marks].
  apply marks_bind; [apply marks_ret | intros net2].
  apply marks_bind; [|intros mr; marks].
  apply marks_bind; [apply marks_called | intros _]. marks.
Qed.

Lemma marks_OneCycleLR o max_lr epochs spe : keeps (OneCycleLR o max_lr epochs spe).
Proof.
  unfold OneCycleLR. apply marks_bind; [apply marks_called | intros _]. marks.
Qed.

Lemma marks_train_step l x y : keeps (train_step l x y).
Proof.
  apply marks_untouched. intros w.
  destruct (train_step_runs l x y w) as [r ->]. reflexivity.
Qed.

Lemma marks_log_block epoch nb idx l a : keeps (log_block cfg epoch nb idx l a).
Proof.
  unfold log_block, py_div, sk_f1_score.
  apply marks_bind; [apply marks_time_time | intros now].
  case_match; [marks|].
  apply marks_bind; [apply marks_ret | intros cur_loss].
  case_match; [|marks].
  apply marks_bind; [apply marks_ret | intros cur_f1].
  apply marks_bind; [apply marks_append; reflexivity | intros _].
  apply marks_bind; [apply marks_print | intros _].
  apply marks_bind; [apply marks_time_time | intros start].
  apply marks_ret.
Qed.

Lemma marks_train_batch epoch nb item st : keeps (train_batch cfg epoch nb item st).
Proof.
  unfold train_batch.
  apply marks_bind; [apply marks_train_step | intros r].
  case_match; [|apply marks_ret].
  apply marks_bind; [apply marks_log_block | intros a']. apply marks_ret.
Qed.

(** The training half of an epoch adds progress lines only. *)
Lemma marks_train_epoch ds epochs epoch l : keeps (train_epoch cfg ds epochs epoch l).
Proof.
  unfold train_epoch, py_div.
  apply marks_bind; [apply marks_time_time | intros start].
  apply marks_bind; [apply marks_iter_loader | intros batches].
  apply marks_bind;
    [apply marks_for_each; intros; apply marks_train_batch | intros la].
  case_match; [marks|].
  apply marks_bind; [apply marks_ret | intros epoch_loss].
  apply marks_bind; [apply marks_print | intros _]. apply marks_ret.
Qed.

Lemma marks_eval_loop m ds : keeps (eval_loop m ds).
Proof.
  unfold eval_loop.
  apply marks_bind; [apply marks_iter_loader | intros batches].
  apply marks_bind; [|intros buf; marks].
  apply marks_for_each. intros item buf. unfold eval_batch.
  apply marks_bind; [apply marks_called | intros out]. marks.
Qed.

(** The evaluation half, when it completes, adds the block of its epoch. *)
Lemma eval_epoch_marks ds n epoch m a w w' :
  eval_epoch cfg ds n epoch m a w = (w', Ok tt) ->
  epoch_marks (content (w_fs w') (result_path cfg)) =
  epoch_marks (content (w_fs w) (result_path cfg)) ++ [epoch].
Proof.
  unfold eval_epoch. intros H.
  apply bind_ok in H as (w1 & b & Hloop & H).
  apply bind_ok in H as (w2 & report & Hrep & H).
  apply bind_ok in H as (w3 & [] & Hwrite & H).
  apply (run_marks _ _ _ _ _ (marks_eval_loop _ _)) in Hloop.
  assert (w2 = w1) as ->.
  { revert Hrep. unfold sk_precision_recall_fscore_support.
    case_match; [|discriminate]. now intros [= <- _]. }
  assert (Hprints : w_fs w' = w_fs w3).
  { revert H. unfold bind, print, ret. simpl. now intros [= <-]. }
  rewrite Hprints. apply write_file_inv in Hwrite as [_ ->].
  unfold content in *. simpl.
  rewrite lookup_insert_eq. simpl. unfold same_marks, content in Hloop.
  unfold epoch_marks in *. rewrite flat_map_app, Hloop. reflexivity.
Qed.

Lemma run_epoch_marks tr te n epochs epoch l w w' l' :
  run_epoch cfg tr te n epochs epoch l w = (w', Ok l') ->
  epoch_marks (content (w_fs w') (result_path cfg)) =
  epoch_marks (content (w_fs w) (result_path cfg)) ++ [epoch].
Proof.
  unfold run_epoch. intros H.
  apply bind_ok in H as (w1 & la & Htrain & H).
  apply bind_ok in H as (w2 & [] & Heval & H).
  injection H as <- _.
  apply (run_marks _ _ _ _ _ (marks_train_epoch _ _ _ _)) in Htrain.
  apply eval_epoch_marks in Heval. unfold same_marks in Htrain. congruence.
Qed.

Lemma epochs_marks tr te n epochs es l w w' l' :
  for_each (run_epoch cfg tr te n epochs) es l w = (w', Ok l') ->
  epoch_marks (content (w_fs w') (result_path cfg)) =
  epoch_marks (content (w_fs w) (result_path cfg)) ++ es.
Proof.
  revert l w. induction es as [|e es IH]; intros l w H.
  - injection H as <- _. now rewrite app_nil_r.
  - simpl in H. apply bind_ok in H as (w1 & l1 & He & H).
    apply IH in H. apply run_epoch_marks in He.
    rewrite H, He, <- app_assoc. reflexivity.
Qed.

End MarksScript.

(** X15. In a run that completes, the result file holds exactly one metrics
    block per epoch, headed by the epoch numbers 0, 1, ..., epochs - 1 in
    that order, whatever the file held before the run. *)
Theorem one_metrics_block_per_epoch (cfg : config) (w w' : world) :
  main cfg w = (w', Ok tt) ->
  epoch_marks (content (w_fs w') (result_path cfg)) =
  map Z.of_nat (seq 0 (Z.to_nat (epoch cfg))).
Proof.
  intros H. rewrite (main_opened _ _ (main_ok_opened _ _ _ _ H)) in H.
  revert H. set (w0 := with_fs _ w). unfold script_body. intros H.
  apply bind_ok in H as (w1 & [] & H1 & H).
  apply bind_ok in H as (w2 & training_data & H2 & H).
  apply bind_ok in H as (w3 & testing_data & H3 & H).
  apply bind_ok in H as (w4 & model & H4 & H).
  apply bind_ok in H as (w5 & model' & H5 & H).
  apply bind_ok in H as (w6 & so & H6 & H).
  apply bind_ok in H as (w7 & l' & H7 & H).
  injection H as <-.
  apply (run_marks _ _ _ _ _ (marks_seeds cfg)) in H1.
  apply (run_marks _ _ _ _ _ (marks_np_load cfg _)) in H2.
  apply (run_marks _ _ _ _ _ (marks_np_load cfg _)) in H3.
  apply (run_marks _ _ _ _ _ (marks_create_model cfg)) in H4.
  apply (run_marks _ _ _ _ _ (marks_load_pretrained cfg _)) in H5.
  apply (run_marks _ _ _ _ _ (marks_OneCycleLR cfg _ _ _ _)) in H6.
  apply epochs_marks in H7. rewrite range_from_zero in H7.
  unfold same_marks in *.
  rewrite H7, H6, H5, H4, H3, H2, H1.
  unfold w0, content. simpl. rewrite lookup_insert_eq. reflexivity.
Qed.

(** ** Runs that stop half-way *)

Section Partial.
Context (cfg : config).

Local Abbreviation marks_of w := (epoch_marks (content (w_fs w) (result_path cfg))).

(** The evaluation half writes its block last: if it raises, no block. *)
Lemma eval_epoch_raise_marks ds n epoch m a w w' e :
  eval_epoch cfg ds n epoch m a w = (w', Raise e) ->
  same_marks (result_path cfg) w w'.
Proof.
  unfold eval_epoch. intros H.
  destruct (eval_loop m ds w) as [w1 [b|e1]] eqn:Hloop.
  - rewrite (bind_step _ _ _ _ _ Hloop) in H.
    apply (run_marks _ _ _ _ _ (marks_eval_loop cfg _ _)) in Hloop.
    unfold sk_precision_recall_fscore_support in H.
    destruct (precision_recall_fscore_support _ _) as [report|].
    + rewrite (bind_step _ _ _ _ report eq_refl) in H.
      match type of H with
      | bind (write_file ?q ?md ?recs) _ _ = _ =>
          destruct (write_file q md recs w1) as [w2 [u|e2]] eqn:Hw
      end.
      * rewrite (bind_step _ _ _ _ _ Hw) in H. discriminate H.
      * rewrite (bind_raises _ _ _ _ _ Hw) in H. injection H as <- _.
        apply write_file_raise in Hw as (_ & -> & _). exact Hloop.
    + injection H as <- _. exact Hloop.
  - rewrite (bind_raises _ _ _ _ _ Hloop) in H. injection H as <- _.
    apply (run_marks _ _ _ _ _ (marks_eval_loop cfg _ _)) in Hloop.
    exact Hloop.
Qed.

Lemma run_epoch_raise_marks tr te n epochs epoch l w w' e :
  run_epoch cfg tr te n epochs epoch l w = (w', Raise e) ->
  same_marks (result_path cfg) w w'.
Proof.
  unfold run_epoch, bind.
  destruct (train_epoch cfg tr epochs epoch l w) as [w1 [la|e1]] eqn:Htrain;
    apply (run_marks _ _ _ _ _ (marks_train_epoch cfg _ _ _ _)) in Htrain.
  - destruct (eval_epoch cfg te n epoch (net la.1) la.2 w1)
      as [w2 [[]|e2]] eqn:Heval; [discriminate|].
    intros [= <- _]. apply eval_epoch_raise_marks in Heval.
    eapply same_marks_trans; eauto.
  - now intros [= <- _].
Qed.

Lemma epochs_marks_any tr te n epochs es l w :
  exists k, (k <= length es)%nat /\
    marks_of (for_each (run_epoch cfg tr te n epochs) es l w).1 =
    marks_of w ++ take k es.
Proof.
  revert l w. induction es as [|e es IH]; intros l w.
  - exists O. simpl. now rewrite app_nil_r.
  - cbn [for_each]. unfold bind.
    destruct (run_epoch cfg tr te n epochs e l w) as [w1 [l1|ex]] eqn:He.
    + apply run_epoch_marks in He. destruct (IH l1 w1) as (k & Hk & Hm).
      exists (S k). split; [simpl; lia|].
      rewrite Hm, He, <- app_assoc. reflexivity.
    + apply run_epoch_raise_marks in He. exists O. split; [simpl; lia|].
      simpl. rewrite app_nil_r. exact He.
Qed.

Lemma bind_marks_prefix {A B} (m : M A) (f : A -> M B) (base es : list Z) w :
  preserves (same_marks (result_path cfg)) m ->
  (forall a w1, marks_of w1 = base ->
     exists k, (k <= length es)%nat /\ marks_of (f a w1).1 = base ++ take k es) ->
  marks_of w = base ->
  exists k, (k <= length es)%nat /\ marks_of (bind m f w).1 = base ++ take k es.
Proof.
  intros Hm Hf Hw. unfold bind. specialize (Hm w). unfold same_marks in Hm.
  destruct (m w) as [w1 [a|e]]; simpl in Hm.
  - apply Hf. congruence.
  - exists O. split; [lia|]. simpl. rewrite app_nil_r. congruence.
Qed.

End Partial.

(** X16. However a run ends, either it stopped at the first open of the
    result file, its directory missing, and left everything as it was, or
    the metrics blocks in the result file are those of the epochs 0, 1,
    ..., k - 1 for some k up to the number of epochs: a run that stops
    half-way leaves the blocks of the epochs it completed, in order, and
    never a block out of turn. *)
Theorem partial_run_keeps_completed_epochs (cfg : config) (w : world) :
  (parent_exists (w_dirs w) (result_path cfg) = false /\ (main cfg w).1 = w) \/
  exists k, (k <= Z.to_nat (epoch cfg))%nat /\
    epoch_marks (content (w_fs (main cfg w).1) (result_path cfg)) =
    map Z.of_nat (seq 0 k).
Proof.
  destruct (parent_exists (w_dirs w) (result_path cfg)) eqn:Hd.
  2:{ left. now rewrite (main_not_opened _ _ Hd). }
  right. rewrite (main_opened _ _ Hd). set (w0 := with_fs _ w).
  assert (H0 : epoch_marks (content (w_fs w0) (result_path cfg)) = []).
  { unfold w0, content. simpl. now rewrite lookup_insert_eq. }
  enough (exists k, (k <= length (range (start_epoch + 1) (epoch cfg)))%nat /\
            epoch_marks (content (w_fs (script_body cfg w0).1) (result_path cfg))
            = [] ++ take k (range (start_epoch + 1) (epoch cfg))) as (k & Hk & Hm).
  { rewrite range_from_zero, length_map, length_seq in Hk.
    exists k. split; [exact Hk|]. rewrite Hm, range_from_zero. simpl.
    rewrite firstn_map. f_equal.
    rewrite take_seq. f_equal. lia. }
  unfold script_body.
  apply bind_marks_prefix; [apply marks_seeds | intros _ w1 H1 | exact H0].
  apply bind_marks_prefix; [apply marks_np_load | intros training_data w2 H2 | exact H1].
  apply bind_marks_prefix; [apply marks_np_load | intros testing_data w3 H3 | exact H2].
  apply bind_marks_prefix; [apply marks_create_model | intros model w4 H4 | exact H3].
  apply bind_marks_prefix; [apply marks_load_pretrained | intros model' w5 H5 | exact H4].
  apply bind_marks_prefix; [apply marks_OneCycleLR | intros so w6 H6 | exact H5].
  match goal with
  | |- context [for_each (run_epoch cfg ?tr ?te ?n ?ep) ?es ?l] =>
      destruct (epochs_marks_any cfg tr te n ep es l w6) as (k & Hk & Hm)
  end.
  exists k. split; [exact Hk|].
  unfold bind. rewrite H6 in Hm.
  match goal with
  | |- context [for_each ?body ?es ?l ?w] => destruct (for_each body es l w) as [w7 [l7|e7]]
  end; exact Hm.
Qed.

(** ** One epoch sees every training sample once *)

Lemma train_loop_true cfg epoch nb batches k st w w' st' :
  for_each (train_batch cfg epoch nb) (enumerate_from k batches) st w
    = (w', Ok st') ->
  train_true st'.2 =
  train_true st.2 ++ concat (map (fun b => map argmax b.2) batches).
Proof.
  revert k st w. induction batches as [|[x y] batches IH]; intros k st w H.
  - injection H as _ <-. simpl. now rewrite app_nil_r.
  - cbn [enumerate_from for_each] in H.
    apply bind_ok in H as (w1 & st1 & Hb & H).
    apply train_batch_acc in Hb as (_ & _ & _ & Hy & _).
    apply IH in H. rewrite H, Hy. cbn [map concat snd].
    now rewrite <- app_assoc.
Qed.

Lemma labels_of_batches (bs : list (list (window * row))) :
  concat (map (fun b => map argmax b.2) (map collate bs)) =
  map (fun s => argmax s.2) (concat bs).
Proof.
  induction bs as [|b bs IH]; [done|].
  cbn [map concat collate snd]. rewrite map_app, IH, map_map. reflexivity.
Qed.

(** X17. When the training half of an epoch completes, [train_true] holds
    the class of every training sample exactly once, in the order the
    shuffled loader served them: nothing is dropped, repeated or cleared
    within the epoch. *)
Theorem epoch_accumulates_every_label (cfg : config)
    (ds : list (window * row)) (epochs epoch : Z) (l : learner)
    (w w' : world) (la : learner * acc) :
  train_epoch cfg ds epochs epoch l w = (w', Ok la) ->
  train_true la.2 ≡ₚ map (fun s => argmax s.2) ds /\
  length (train_true la.2) = length ds.
Proof.
  intros H. unfold train_epoch in H.
  apply bind_ok in H as (w1 & start & Ht & H).
  apply bind_ok in H as (w2 & batches & Hit & H).
  apply bind_ok in H as (w3 & la' & Hloop & H).
  apply bind_ok in H as (w4 & epoch_loss & Hdiv & H).
  apply bind_ok in H as (w5 & [] & Hprint & H).
  injection H as _ <-.
  apply iter_loader_shuffled in Hit as (samples & Hperm & ->).
  apply train_loop_true in Hloop.
  rewrite labels_of_batches, chunks_concat in Hloop.
  cbn [fresh_acc train_true snd app] in Hloop. rewrite Hloop. split.
  - now apply Permutation_map.
  - rewrite length_map. now apply Permutation_length.
Qed.

(** ** When the checkpoint is read *)

Lemma load_calls_add c w :
  is_load_call c = false -> load_calls (add_call c w) = load_calls w.
Proof.
  intros Hc. unfold load_calls. simpl.
  rewrite List.filter_app. simpl. rewrite Hc. apply app_nil_r.
Qed.

Ltac no_load :=
  intros ?; unfold unchanged; simpl;
  repeat match goal with
         | |- context [match ?x with _ => _ end] => destruct x
         end;
  unfold load_calls; simpl; rewrite ?List.filter_app; simpl;
  rewrite ?app_nil_r; reflexivity.

Ltac loads :=
  repeat first
    [ apply unchanged_ret | apply unchanged_raise
    | apply unchanged_bind; [| intros ?]
    | case_match ].

Section LoadCalls.
Context (cfg : config).

Local Abbreviation keeps := (preserves (unchanged load_calls)).

Lemma loads_called {A} c (a : A) : is_load_call c = false -> keeps (called c a).
Proof. intros Hc w. now apply load_calls_add. Qed.

Lemma loads_print r : keeps (print r).
Proof. unfold print. no_load. Qed.

Lemma loads_time_time : keeps time_time.
Proof. unfold time_time. no_load. Qed.

Lemma loads_write p mode recs : keeps (write_file p mode recs).
Proof. unfold write_file. no_load. Qed.

Lemma loads_np_load q : keeps (np_load q).
Proof. unfold np_load. no_load. Qed.

Lemma loads_seeds : keeps fix_all_random_seeds.
Proof. now intros w. Qed.

Lemma loads_create_model : keeps (create_model cfg).
Proof. unfold create_model. no_load. Qed.

Lemma loads_iter_loader b ds : keeps (iter_loader b ds).
Proof.
  unfold iter_loader.
  apply unchanged_bind; [unfold draw_base_seed; no_load | intros _].
  apply unchanged_bind.
  - unfold sampler. destruct b; [no_load | apply unchanged_ret].
  - intros order. loads.
Qed.

Lemma loads_OneCycleLR o max_lr epochs spe : keeps (OneCycleLR o max_lr epochs spe).
Proof.
  unfold OneCycleLR.
  apply unchanged_bind; [now apply loads_called | intros _]. loads.
Qed.

Lemma loads_train_step l x y : keeps (train_step l x y).
Proof.
  intros w. destruct (train_step_runs l x y w) as [r ->].
  unfold unchanged, load_calls. simpl.
  rewrite List.filter_app. simpl. apply app_nil_r.
Qed.

Lemma loads_log_block epoch nb idx l a : keeps (log_block cfg epoch nb idx l a).
Proof.
  unfold log_block, py_div, sk_f1_score.
  apply unchanged_bind; [apply loads_time_time | intros now].
  case_match; [loads|].
  apply unchanged_bind; [apply unchanged_ret | intros cur_loss].
  case_match; [|loads].
  apply unchanged_bind; [apply unchanged_ret | intros cur_f1].
  apply unchanged_bind; [apply loads_write | intros _].
  apply unchanged_bind; [apply loads_print | intros _].
  apply unchanged_bind; [apply loads_time_time | intros start].
  apply unchanged_ret.
Qed.

Lemma loads_train_epoch ds epochs epoch l : keeps (train_epoch cfg ds epochs epoch l).
Proof.
  unfold train_epoch, py_div.
  apply unchanged_bind; [apply loads_time_time | intros start].
  apply unchanged_bind; [apply loads_iter_loader | intros batches].
  apply unchanged_bind.
  - apply unchanged_for_each. intros item st. unfold train_batch.
    apply unchanged_bind; [apply loads_train_step | intros r].
    case_match; [|apply unchanged_ret].
    apply unchanged_bind; [apply loads_log_block | intros a'].
    apply unchanged_ret.
  - intros la. case_match; [loads|].
    apply unchanged_bind; [apply unchanged_ret | intros epoch_loss].
    apply unchanged_bind; [apply loads_print | intros _]. apply unchanged_ret.
Qed.

Lemma loads_eval_epoch ds n epoch m a : keeps (eval_epoch cfg ds n epoch m a).
Proof.
  unfold eval_epoch, eval_loop, sk_precision_recall_fscore_support.
  apply unchanged_bind.
  - apply unchanged_bind; [apply loads_iter_loader | intros batches].
    apply unchanged_bind; [|intros buf; loads].
    apply unchanged_for_each. intros item buf. unfold eval_batch.
    apply unchanged_bind; [now apply loads_called | intros out]. loads.
  - intros b. case_match; [|loads].
    apply unchanged_bind; [apply unchanged_ret | intros report].
    apply unchanged_bind; [apply loads_write | intros _].
    repeat (apply unchanged_bind; [apply loads_print | intros _]).
    apply loads_print.
Qed.

Lemma loads_run_epoch tr te n epochs epoch l :
  keeps (run_epoch cfg tr te n epochs epoch l).
Proof.
  unfold run_epoch.
  apply unchanged_bind; [apply loads_train_epoch | intros la].
  apply unchanged_bind; [apply loads_eval_epoch | intros _].
  apply unchanged_ret.
Qed.

End LoadCalls.

(** What the loading step adds to the trace when it succeeds. *)
Lemma load_pretrained_calls (cfg : config) (model model' : module) (w w' : world) :
  pretrained_log_name cfg <> "random" ->
  load_pretrained cfg model w = (w', Ok model') ->
  exists keys,
    w_calls w' =
    w_calls w ++ [CTorchLoad (load_path cfg); CLoadStateDict keys false].
Proof.
  intros Hname. unfold load_pretrained. rewrite (eqb_ne _ _ Hname). simpl.
  intros H.
  apply bind_ok in H as (w1 & ck & Hload & H).
  apply bind_ok in H as (w2 & net & Hget & H).
  apply bind_ok in H as (w3 & net1 & Hp1 & H).
  apply bind_ok in H as (w4 & net2 & Hp2 & H).
  apply bind_ok in H as (w5 & mr & Hsd & H).
  apply bind_ok in H as (w6 & [] & Hwrite & H).
  injection H as <- _.
  apply torch_load_ok in Hload as [_ ->].
  assert (w2 = add_call (CTorchLoad (load_path cfg)) w) as ->.
  { revert Hget. unfold dict_get. case_match; [|discriminate]. now intros [= <- _]. }
  apply dict_pop_ok in Hp1 as (_ & _ & ->).
  apply dict_pop_ok in Hp2 as (_ & _ & ->).
  apply load_state_dict_ok in Hsd as [_ ->].
  apply write_file_inv in Hwrite as [_ ->].
  eexists. simpl. now rewrite <- app_assoc.
Qed.

(** X18. A run in "random" mode never reads or applies a checkpoint,
    however it ends: no call to [torch.load] or [load_state_dict] is added
    to the trace, so the checkpoint path plays no part in the run. *)
Theorem random_run_never_loads (cfg : config) (w : world) :
  pretrained_log_name cfg = "random" ->
  load_calls (main cfg w).1 = load_calls w.
Proof.
  intros Hrandom.
  destruct (parent_exists (w_dirs w) (result_path cfg)) eqn:Hd.
  2:{ now rewrite (main_not_opened _ _ Hd). }
  rewrite (main_opened _ _ Hd). set (w0 := with_fs _ w).
  change (load_calls w) with (load_calls w0).
  enough (preserves (unchanged load_calls) (script_body cfg)) as H by apply H.
  unfold script_body.
  apply unchanged_bind; [apply loads_seeds | intros _].
  apply unchanged_bind; [apply loads_np_load | intros training_data].
  apply unchanged_bind; [apply loads_np_load | intros testing_data].
  apply unchanged_bind; [apply loads_create_model | intros model].
  apply unchanged_bind.
  { unfold load_pretrained. rewrite Hrandom. apply unchanged_ret. }
  intros model'.
  apply unchanged_bind; [apply loads_OneCycleLR | intros so].
  apply unchanged_bind; [|intros; apply unchanged_ret].
  apply unchanged_for_each. intros e l. apply loads_run_epoch.
Qed.

(** X19. A run in any other mode that completes reads the checkpoint
    exactly once and applies it exactly once, non-strictly: those are the
    only two loading calls in its trace. *)
Theorem checkpoint_loaded_once (cfg : config) (w w' : world) :
  pretrained_log_name cfg <> "random" ->
  main cfg w = (w', Ok tt) ->
  exists keys,
    load_calls w' =
    load_calls w ++ [CTorchLoad (load_path cfg); CLoadStateDict keys false].
Proof.
  intros Hname H. rewrite (main_opened _ _ (main_ok_opened _ _ _ _ H)) in H.
  revert H. set (w0 := with_fs _ w).
  change (load_calls w) with (load_calls w0).
  unfold script_body. intros H.
  apply bind_ok in H as (w1 & [] & H1 & H).
  apply bind_ok in H as (w2 & training_data & H2 & H).
  apply bind_ok in H as (w3 & testing_data & H3 & H).
  apply bind_ok in H as (w4 & model & H4 & H).
  apply bind_ok in H as (w5 & model' & H5 & H).
  apply bind_ok in H as (w6 & so & H6 & H).
  apply bind_ok in H as (w7 & l' & H7 & H).
  injection H as <-.
  pose proof (run_unchanged load_calls _ _ _ _ loads_seeds H1) as K1.
  pose proof (run_unchanged load_calls _ _ _ _ (loads_np_load _) H2) as K2.
  pose proof (run_unchanged load_calls _ _ _ _ (loads_np_load _) H3) as K3.
  pose proof (run_unchanged load_calls _ _ _ _ (loads_create_model cfg) H4) as K4.
  pose proof (run_unchanged load_calls _ _ _ _ (loads_OneCycleLR _ _ _ _) H6) as K6.
  pose proof (run_unchanged load_calls _ _ _ _
                (unchanged_for_each load_calls _ _ _
                   (fun e l => loads_run_epoch cfg _ _ _ _ e l)) H7) as K7.
  apply load_pretrained_calls in H5 as (keys & H5); [|exact Hname].
  exists keys.
  rewrite K7, K6. unfold load_calls at 1. rewrite H5, List.filter_app.
  fold (load_calls w4). now rewrite K4, K3, K2, K1.
Qed.

(** ** The directory of the result file *)

(** X20. The script opens the result file before anything else and never
    creates its directory: when that directory is missing the run stops at
    line 39 with [FileNotFoundError], nothing seeded, read, printed or
    written. *)
Theorem missing_result_directory (cfg : config) (w : world) :
  parent_exists (w_dirs w) (result_path cfg) = false ->
  main cfg w = (w, Raise (FileNotFoundError (result_path cfg))).
Proof. apply main_not_opened. Qed.

(** ** Runs that complete *)

Section Completes.
Context (cfg : config).
Hypothesis f1_defined : forall t q, is_Some (f1_score t q).

Lemma log_block_runs epoch nb idx l a w :
  parent_exists (w_dirs w) (result_path cfg) = true ->
  exists w' a', log_block cfg epoch nb idx l a w = (w', Ok a').
Proof.
  intros Hd. unfold log_block.
  rewrite (bind_step _ _ _ _ _ (time_time_run w)).
  unfold py_div at 1. change (Z.of_nat log_interval =? 0) with false.
  cbv iota. rewrite (bind_step _ _ _ _ _ eq_refl).
  unfold sk_f1_score at 1.
  destruct (f1_defined (train_true a) (train_pred a)) as [f ->].
  rewrite (bind_step _ _ _ _ _ eq_refl).
  erewrite bind_step; [|apply write_file_ok; exact Hd].
  eexists _, _. reflexivity.
Qed.

Lemma train_batch_runs epoch nb item st w :
  parent_exists (w_dirs w) (result_path cfg) = true ->
  exists w' st', train_batch cfg epoch nb item st w = (w', Ok st').
Proof.
  intros Hd. unfold train_batch.
  rewrite (bind_step _ _ _ _ _ (train_step_spec st.1 item.2.1 item.2.2 w)).
  cbn [fst snd]. destruct (at_interval item.1).
  - match goal with
    | |- context [log_block cfg ?e ?n ?i ?l ?a] =>
        destruct (log_block_runs e n i l a
                    (add_calls step_pattern
                       (with_rng (sr_rng (spec_step st.1 item.2.1 item.2.2
                                            (w_rng w))) w)) Hd)
          as (w' & a' & Hlog)
    end.
    rewrite (bind_step _ _ _ _ _ Hlog). eexists _, _. reflexivity.
  - eexists _, _. reflexivity.
Qed.

Lemma train_loop_runs epoch nb items st w :
  parent_exists (w_dirs w) (result_path cfg) = true ->
  exists w' st', for_each (train_batch cfg epoch nb) items st w = (w', Ok st').
Proof.
  revert st w. induction items as [|item items IH]; intros st w Hd.
  - eexists _, _. reflexivity.
  - destruct (train_batch_runs epoch nb item st w Hd) as (w1 & st1 & Hb).
    cbn [for_each]. rewrite (bind_step _ _ _ _ _ Hb). apply IH.
    destruct (run_stays only_whole_steps (result_path cfg) _ _ _ _
                (preserves_train_batch cfg epoch nb item st) Hb) as [_ _ _ ->].
    exact Hd.
Qed.

(** The training half of an epoch on a data set that is not empty runs to
    its end whenever the result file can be opened and the F1 score of the
    interval reports is defined. *)
Lemma train_epoch_runs ds epochs epoch l w :
  ds <> [] ->
  parent_exists (w_dirs w) (result_path cfg) = true ->
  exists w' la, train_epoch cfg ds epochs epoch l w = (w', Ok la).
Proof.
  intros Hne Hd. unfold train_epoch.
  rewrite (bind_step _ _ _ _ _ (time_time_run w)).
  erewrite bind_step; [|apply iter_loader_shuffled_run].
  match goal with
  | |- context [bind (for_each ?body ?items ?st) _ ?w1] =>
      destruct (train_loop_runs epoch (loader_len (length ds)) items st w1 Hd)
        as (w3 & la & Hloop)
  end.
  rewrite (bind_step _ _ _ _ _ Hloop).
  unfold py_div.
  destruct (Z.eqb_spec (Z.of_nat (loader_len (length ds))) 0) as [Hz|_].
  { exfalso. apply Hne. apply length_zero_iff_nil.
    unfold loader_len, batch_size in Hz.
    destruct (length ds) as [|n]; [done|].
    assert (1 <= (S n + 64 - 1) / 64)%nat
      by (apply Nat.div_le_lower_bound; lia). lia. }
  rewrite (bind_step _ _ _ _ _ eq_refl).
  eexists _, _. reflexivity.
Qed.

End Completes.

End Proofs.

(** * Concrete runs *)

Import Demo.

(** C1, on the code.  Batch 100 ends a logging interval.  Entering it with
    one prediction and one label accumulated, and a batch of one sample,
    the loop body leaves the running loss at zero but the running
    predictions and labels at two entries each: the block that resets the
    loss does not reset them. *)
Theorem interval_block_keeps_predictions :
  match (train_batch cfg 0 102 (100%nat, ([1], [one_hot 1]))
           (learner0, acc_before) w0).2 with
  | Ok st' =>
      train_loss st'.2 = 0 /\
      train_pred st'.2 = [0%nat; 1%nat] /\
      train_true st'.2 = [0%nat; 1%nat]
  | Raise _ => False
  end.
Proof. vm_compute. auto. Qed.

Lemma train_batch_at_interval_witness :
  (100 mod log_interval = 0)%nat /\ (0 < 100)%nat /\
  exists w' st',
    train_batch cfg 0 102 (100%nat, ([1], [one_hot 1])) (learner0, acc_before) w0
      = (w', Ok st') /\
    train_pred st'.2 = [0%nat; 1%nat].
Proof.
  assert (H1 : (100 mod log_interval = 0)%nat) by reflexivity.
  assert (H2 : (0 < 100)%nat) by lia.
  destruct (train_batch cfg 0 102 (100%nat, ([1], [one_hot 1]))
              (learner0, acc_before) w0) as [w' [st'|e]] eqn:Hrun.
  - refine (conj H1 (conj H2 _)). exists w', st'. split; [reflexivity|].
    destruct (train_batch_at_interval _ _ _ _ _ _ _ _ _ _ H1 H2 Hrun)
      as (_ & Hp & _).
    exact Hp.
  - exfalso. vm_compute in Hrun. discriminate Hrun.
Defined.

Lemma load_pretrained_drops_head_witness :
  pretrained_log_name cfg <> "random" /\
  parent_exists (w_dirs w0) (result_path cfg) = true /\
  w_fs w0 !! load_path cfg = Some [CkptBlob {[ "net" := checkpoint_net ]}] /\
  is_Some (checkpoint_net !! head_weight) /\
  is_Some (checkpoint_net !! head_bias) /\
  exists model',
    load_pretrained cfg model0 w0
      = (loaded_world cfg checkpoint_net model0 w0, Ok model') /\
    model' !! "module.adapter.weight" =
      Some {| p_data := ([4; 2]%nat, 20); p_requires_grad := true |} /\
    model' !! "module.fc1.weight" = model0 !! "module.fc1.weight".
Proof.
  assert (H1 : pretrained_log_name cfg <> "random") by discriminate.
  assert (Hd : parent_exists (w_dirs w0) (result_path cfg) = true)
    by (vm_compute; reflexivity).
  assert (H2 : w_fs w0 !! load_path cfg
               = Some [CkptBlob {[ "net" := checkpoint_net ]}])
    by (vm_compute; reflexivity).
  assert (H3 : ({[ "net" := checkpoint_net ]} : gmap string state_dict) !! "net"
               = Some checkpoint_net) by reflexivity.
  assert (H4 : is_Some (checkpoint_net !! head_weight))
    by (eexists; vm_compute; reflexivity).
  assert (H5 : is_Some (checkpoint_net !! head_bias))
    by (eexists; vm_compute; reflexivity).
  assert (H6 : forall k t p, without_head checkpoint_net !! k = Some t ->
                 model0 !! k = Some p -> shape t = shape (p_data p)).
  { apply shapes_ok_spec. vm_compute. reflexivity. }
  destruct (load_pretrained_drops_head cfg model0 w0 _ _ H1 Hd H2 H3 H4 H5 H6)
    as (model' & Hrun & _ & _ & _ & Hcopy & Hkeep & _).
  refine (conj H1 (conj Hd (conj H2 (conj H4 (conj H5 _))))).
  exists model'. split; [exact Hrun|]. split.
  - apply (Hcopy _ _ (mk [4; 2]%nat 2 true));
      vm_compute; reflexivity.
  - apply Hkeep. vm_compute. reflexivity.
Defined.

Lemma training_steps_in_order_witness :
  w_fs w0 !! training_path cfg
    = Some [NpzBlob [0; 1; 1] [one_hot 0; one_hot 1; one_hot 1]] /\
  main cfg w0 = ((main cfg w0).1, Ok tt) /\
  step_calls (w_calls (main cfg w0).1) = step_pattern ++ step_pattern /\
  scheduler_steps (w_calls (main cfg w0).1) = 2%nat.
Proof.
  assert (H1 : w_fs w0 !! training_path cfg
               = Some [NpzBlob [0; 1; 1] [one_hot 0; one_hot 1; one_hot 1]])
    by (vm_compute; reflexivity).
  assert (H2 : main cfg w0 = ((main cfg w0).1, Ok tt))
    by (vm_compute; reflexivity).
  refine (conj H1 (conj H2 _)).
  destruct (training_steps_in_order cfg w0 _ _ _ H1 H2)
    as (_ & model & so & te & n_test & w1 & l_end & _ & _ & _ & Hs & _ & Hn).
  split; [exact Hs | exact Hn].
Defined.

Lemma eval_buffers_in_order_witness :
  test_ds <> [] /\
  parent_exists (w_dirs w0) (result_path cfg) = true /\
  (exists w1,
     eval_loop model0 test_ds w0
       = (w1, Ok (eval_predictions model0 test_ds, map snd test_ds))) /\
  eval_predictions model0 test_ds = [[0; 1]; [1; 0]] /\
  exists w',
    eval_epoch cfg test_ds 2 0 model0 acc_before w0 = (w', Ok tt) /\
    content (w_fs w') (result_path cfg) =
    content (w_fs w0) (result_path cfg) ++
    map Rec [RNumEpochs 0; RNumTest 2; RPrecision 1; RRecall 1; RF1 1;
             RAllLoss []; RBlank].
Proof.
  assert (H1 : test_ds <> []) by discriminate.
  assert (Hd : parent_exists (w_dirs w0) (result_path cfg) = true)
    by (vm_compute; reflexivity).
  destruct (eval_buffers_in_order cfg test_ds 2 0 model0 acc_before w0 H1)
    as (Hloop & _ & _ & _ & Hrep).
  refine (conj H1 (conj Hd (conj Hloop (conj eq_refl _)))).
  exact (Hrep (1, 1, 1) Hd eq_refl).
Defined.


(** In the concrete instance the F1 score is always defined. *)
Lemma demo_f1_defined (t q : list nat) : is_Some (f1_score t q).
Proof. now exists 1. Qed.

(** An epoch of 101 batches: 100 of 64 samples and one of a single sample.
    In the concrete instance the loss of a batch is its size, so the one
    interval recorded, batches 0 to 100, sums to 6401, and the epoch loss
    printed is 6401 / 101, with the integer division of the instance. *)
Lemma epoch_loss_is_sum_over_batches_witness :
  exists w' la,
    train_epoch cfg long_ds 2 0 learner0 w0 = (w', Ok la) /\
    loader_len (length long_ds) = 101%nat /\
    loss_all la.2 = [6401] /\
    last (w_stdout w') = Some (REpochLoss 0 2 63).
Proof.
  destruct (train_epoch_runs cfg demo_f1_defined long_ds 2 0 learner0 w0)
    as (w' & la & Hrun); [discriminate | vm_compute; reflexivity |].
  exists w', la. split; [exact Hrun|]. split; [vm_compute; reflexivity|].
  destruct (epoch_loss_is_sum_over_batches cfg long_ds 2 0 learner0 w0 w' la Hrun)
    as (_ & _ & Hloss & Hout).
  assert (Hl : loss_all la.2 = [6401]).
  { rewrite Hloss. vm_compute. reflexivity. }
  split; [exact Hl|]. rewrite Hout, Hl. vm_compute. reflexivity.
Defined.

(** The two cases of the first open, on the file system of [w0] and on a
    fresh checkout without the directory [result]. *)
Lemma result_file_fresh_then_appended_witness :
  parent_exists (w_dirs w0) (result_path cfg) = true /\
  (exists l, w_fs (main cfg w0).1 !! result_path cfg
             = Some (Rec (RArgs cfg) :: map Rec l)) /\
  parent_exists (w_dirs w_no_result_dir) (result_path cfg) = false /\
  main cfg w_no_result_dir =
    (w_no_result_dir, Raise (FileNotFoundError (result_path cfg))).
Proof.
  assert (H1 : parent_exists (w_dirs w0) (result_path cfg) = true)
    by (vm_compute; reflexivity).
  assert (H2 : parent_exists (w_dirs w_no_result_dir) (result_path cfg) = false)
    by (vm_compute; reflexivity).
  refine (conj H1 (conj _ (conj H2 _))).
  - exact (proj1 (proj2 (result_file_fresh_then_appended cfg w0)) H1).
  - exact (proj2 (proj2 (result_file_fresh_then_appended cfg w_no_result_dir)) H2).
Defined.

(** C7, as stated, fails: a result file left by an earlier run with the
    same configuration is truncated when the script opens it in mode 'w',
    so what it held is not a prefix of what it holds after the run. *)
Lemma result_file_not_append_only :
  ~ exists l,
      content (w_fs (main cfg w0).1) (result_path cfg)
      = content (w_fs w0) (result_path cfg) ++ l.
Proof.
  intros [l H]. vm_compute in H. discriminate H.
Qed.

Lemma shuffle_order_deterministic_witness :
  (forall q, q <> result_path cfg -> fs0 !! q = fs1 !! q) /\
  batch_orders (w_calls (main cfg (boot fs0 dirs0 rng0 clock0)).1)
  = batch_orders (w_calls (main cfg (boot fs1 dirs0 rng1 clock1)).1).
Proof.
  assert (H1 : forall q, q <> result_path cfg -> fs0 !! q = fs1 !! q).
  { intros q Hq. unfold fs1. symmetry. apply lookup_delete_ne. congruence. }
  split; [exact H1|].
  exact (proj1 (shuffle_order_deterministic cfg fs0 fs1 dirs0 rng0 rng1
                  clock0 clock1 H1)).
Defined.

Lemma load_pretrained_random_witness :
  pretrained_log_name cfg_random = "random" /\
  load_pretrained cfg_random model0 w0 = (w0, Ok model0).
Proof.
  assert (H1 : pretrained_log_name cfg_random = "random") by reflexivity.
  split; [exact H1|].
  exact (load_pretrained_random cfg_random model0 w0 H1).
Defined.

Lemma load_pretrained_needs_head_witness :
  pretrained_log_name cfg <> "random" /\
  w_fs w_headless !! load_path cfg = Some [CkptBlob {[ "net" := headless_net ]}] /\
  headless_net !! head_bias = None /\
  exists k, (k = head_weight \/ k = head_bias) /\
    load_pretrained cfg model0 w_headless
    = (add_call (CTorchLoad (load_path cfg)) w_headless, Raise (KeyError k)).
Proof.
  assert (H1 : pretrained_log_name cfg <> "random") by discriminate.
  assert (H2 : w_fs w_headless !! load_path cfg
               = Some [CkptBlob {[ "net" := headless_net ]}])
    by (vm_compute; reflexivity).
  assert (H3 : ({[ "net" := headless_net ]} : gmap string state_dict) !! "net"
               = Some headless_net) by reflexivity.
  assert (H4 : headless_net !! head_bias = None) by (vm_compute; reflexivity).
  refine (conj H1 (conj H2 (conj H4 _))).
  exact (proj1 (load_pretrained_needs_head cfg model0 w_headless _ _ H1 H2 H3)
           (or_intror H4)).
Defined.

(** * Concrete runs for the further properties *)

Lemma missing_training_archive_witness :
  parent_exists dirs0 (result_path cfg) = true /\
  fs_no_training !! training_path cfg = None /\
  exists w',
    main cfg (boot fs_no_training dirs0 rng0 clock0)
      = (w', Raise (FileNotFoundError (training_path cfg))) /\
    w_rng w' = seeded.
Proof.
  assert (Hd : parent_exists (w_dirs (boot fs_no_training dirs0 rng0 clock0))
                 (result_path cfg) = true) by (vm_compute; reflexivity).
  assert (H1 : w_fs (boot fs_no_training dirs0 rng0 clock0) !! training_path cfg
               = None)
    by apply lookup_delete_eq.
  refine (conj Hd (conj H1 _)).
  destruct (missing_training_archive cfg _ Hd H1) as (w' & Hrun & _ & _ & Hrng & _).
  exists w'. split; [exact Hrun | exact Hrng].
Defined.

Lemma missing_testing_archive_witness :
  parent_exists dirs0 (result_path cfg) = true /\
  fs_no_testing !! training_path cfg
    = Some [NpzBlob [0; 1; 1] [one_hot 0; one_hot 1; one_hot 1]] /\
  fs_no_testing !! testing_path cfg = None /\
  exists w',
    main cfg (boot fs_no_testing dirs0 rng0 clock0)
      = (w', Raise (FileNotFoundError (testing_path cfg))) /\
    w_rng w' = seeded.
Proof.
  assert (Hd : parent_exists (w_dirs (boot fs_no_testing dirs0 rng0 clock0))
                 (result_path cfg) = true) by (vm_compute; reflexivity).
  assert (H1 : w_fs (boot fs_no_testing dirs0 rng0 clock0) !! training_path cfg
               = Some [NpzBlob [0; 1; 1] [one_hot 0; one_hot 1; one_hot 1]])
    by (vm_compute; reflexivity).
  assert (H2 : w_fs (boot fs_no_testing dirs0 rng0 clock0) !! testing_path cfg
               = None)
    by apply lookup_delete_eq.
  refine (conj Hd (conj H1 (conj H2 _))).
  destruct (missing_testing_archive cfg _ _ _ Hd H1 H2)
    as (w' & Hrun & _ & _ & Hrng).
  exists w'. split; [exact Hrun | exact Hrng].
Defined.

Lemma missing_checkpoint_file_witness :
  pretrained_log_name cfg <> "random" /\
  w_fs w_no_checkpoint !! load_path cfg = None /\
  load_pretrained cfg model0 w_no_checkpoint =
  (add_call (CTorchLoad (load_path cfg)) w_no_checkpoint,
   Raise (FileNotFoundError (load_path cfg))).
Proof.
  assert (H1 : pretrained_log_name cfg <> "random") by discriminate.
  assert (H2 : w_fs w_no_checkpoint !! load_path cfg = None)
    by apply lookup_delete_eq.
  refine (conj H1 (conj H2 _)).
  exact (missing_checkpoint_file cfg model0 w_no_checkpoint H1 H2).
Defined.

Lemma checkpoint_without_net_witness :
  pretrained_log_name cfg <> "random" /\
  w_fs w_no_net !! load_path cfg = Some [CkptBlob {[ "optimizer" := ∅ ]}] /\
  load_pretrained cfg model0 w_no_net =
  (add_call (CTorchLoad (load_path cfg)) w_no_net, Raise (KeyError "net")).
Proof.
  assert (H1 : pretrained_log_name cfg <> "random") by discriminate.
  assert (H2 : w_fs w_no_net !! load_path cfg
               = Some [CkptBlob {[ "optimizer" := ∅ ]}])
    by apply lookup_insert_eq.
  assert (H3 : ({[ "optimizer" := ∅ ]} : gmap string state_dict) !! "net" = None)
    by reflexivity.
  refine (conj H1 (conj H2 _)).
  exact (checkpoint_without_net cfg model0 w_no_net _ H1 H2 H3).
Defined.

Lemma size_mismatch_raises_witness :
  pretrained_log_name cfg <> "random" /\
  w_fs w_misshapen !! load_path cfg = Some [CkptBlob {[ "net" := misshapen_net ]}] /\
  without_head misshapen_net !! "module.encoder.weight" = Some ([8; 8]%nat, 60) /\
  model0 !! "module.encoder.weight" = Some (mk [4; 4]%nat 1 false) /\
  exists w',
    load_pretrained cfg model0 w_misshapen = (w', Raise RuntimeError) /\
    w_fs w' = w_fs w_misshapen.
Proof.
  assert (H1 : pretrained_log_name cfg <> "random") by discriminate.
  assert (H2 : w_fs w_misshapen !! load_path cfg
               = Some [CkptBlob {[ "net" := misshapen_net ]}])
    by apply lookup_insert_eq.
  assert (H3 : ({[ "net" := misshapen_net ]} : gmap string state_dict) !! "net"
               = Some misshapen_net) by reflexivity.
  assert (H4 : is_Some (misshapen_net !! head_weight))
    by (eexists; vm_compute; reflexivity).
  assert (H5 : is_Some (misshapen_net !! head_bias))
    by (eexists; vm_compute; reflexivity).
  assert (H6 : without_head misshapen_net !! "module.encoder.weight"
               = Some ([8; 8]%nat, 60)) by (vm_compute; reflexivity).
  assert (H7 : model0 !! "module.encoder.weight" = Some (mk [4; 4]%nat 1 false))
    by (vm_compute; reflexivity).
  assert (H8 : shape (([8; 8]%nat, 60) : tensor)
               <> shape (p_data (mk [4; 4]%nat 1 false))) by discriminate.
  refine (conj H1 (conj H2 (conj H6 (conj H7 _)))).
  exact (size_mismatch_raises cfg model0 w_misshapen _ _ _ _ _
           H1 H2 H3 H4 H5 H6 H7 H8).
Defined.

Lemma load_failure_writes_nothing_witness :
  load_pretrained cfg model0 w_headless
    = ((load_pretrained cfg model0 w_headless).1, Raise (KeyError head_bias)) /\
  w_fs (load_pretrained cfg model0 w_headless).1 = w_fs w_headless.
Proof.
  assert (H1 : load_pretrained cfg model0 w_headless
               = ((load_pretrained cfg model0 w_headless).1,
                  Raise (KeyError head_bias)))
    by (vm_compute; reflexivity).
  split; [exact H1|].
  exact (proj1 (load_failure_writes_nothing cfg model0 w_headless _ _ H1)).
Defined.

Lemma load_keeps_trainability_witness :
  load_pretrained cfg model0 w0 = (first_load.1, Ok loaded_model) /\
  p_requires_grad <$> loaded_model !! "module.adapter.weight"
  = p_requires_grad <$> model0 !! "module.adapter.weight".
Proof.
  assert (H1 : load_pretrained cfg model0 w0 = (first_load.1, Ok loaded_model))
    by (vm_compute; reflexivity).
  split; [exact H1|].
  exact (load_keeps_trainability cfg model0 loaded_model w0 _ H1 _).
Defined.

Lemma head_never_loaded_witness :
  load_pretrained cfg model0 w0 = (first_load.1, Ok loaded_model) /\
  loaded_model !! head_weight = model0 !! head_weight.
Proof.
  assert (H1 : load_pretrained cfg model0 w0 = (first_load.1, Ok loaded_model))
    by (vm_compute; reflexivity).
  split; [exact H1|].
  exact (proj1 (head_never_loaded cfg model0 loaded_model w0 _ H1)).
Defined.


Lemma short_epoch_reports_zero_loss_witness :
  train_epoch cfg train_ds 2 0 learner0 w0 = (first_epoch.1, Ok first_la) /\
  (loader_len (length train_ds) <= 100)%nat /\
  loss_all first_la.2 = [].
Proof.
  assert (H1 : train_epoch cfg train_ds 2 0 learner0 w0
               = (first_epoch.1, Ok first_la))
    by (vm_compute; reflexivity).
  assert (H2 : (loader_len (length train_ds) <= 100)%nat)
    by (apply Nat.leb_le; reflexivity).
  refine (conj H1 (conj H2 _)).
  exact (proj1 (short_epoch_reports_zero_loss cfg train_ds 2 0 learner0 w0
                  _ _ H1 H2)).
Defined.

(** The epoch of 101 batches reaches one logging interval, at batch 100. *)
Lemma loss_all_length_witness :
  exists w' la,
    train_epoch cfg long_ds 2 0 learner0 w0 = (w', Ok la) /\
    loader_len (length long_ds) = 101%nat /\
    length (loss_all la.2) = 1%nat.
Proof.
  destruct (train_epoch_runs cfg demo_f1_defined long_ds 2 0 learner0 w0)
    as (w' & la & Hrun); [discriminate | vm_compute; reflexivity |].
  exists w', la. split; [exact Hrun|]. split; [vm_compute; reflexivity|].
  rewrite (loss_all_length cfg long_ds 2 0 learner0 w0 w' la Hrun).
  vm_compute. reflexivity.
Defined.

Lemma later_run_discards_earlier_output_witness :
  parent_exists (w_dirs w0) (result_path cfg) = true /\
  log_name cfg = log_name cfg_other_window /\
  pretrained_log_name cfg = pretrained_log_name cfg_other_window /\
  tune_mode cfg = tune_mode cfg_other_window /\
  num_layers cfg = num_layers cfg_other_window /\
  adapter_size cfg = adapter_size cfg_other_window /\
  lr cfg = lr cfg_other_window /\
  epoch cfg = epoch cfg_other_window /\
  result_path cfg = result_path cfg_other_window.
Proof.
  assert (Hd : parent_exists (w_dirs w0) (result_path cfg) = true)
    by (vm_compute; reflexivity).
  refine (conj Hd (conj eq_refl (conj eq_refl (conj eq_refl (conj eq_refl
            (conj eq_refl (conj eq_refl (conj eq_refl _)))))))).
  exact (proj1 (later_run_discards_earlier_output cfg cfg_other_window w0
                  Hd eq_refl eq_refl eq_refl eq_refl eq_refl eq_refl eq_refl)).
Defined.

Lemma one_metrics_block_per_epoch_witness :
  main cfg w0 = ((main cfg w0).1, Ok tt) /\
  epoch_marks (content (w_fs (main cfg w0).1) (result_path cfg)) = [0; 1].
Proof.
  assert (H1 : main cfg w0 = ((main cfg w0).1, Ok tt))
    by (vm_compute; reflexivity).
  split; [exact H1|].
  exact (one_metrics_block_per_epoch cfg w0 _ H1).
Defined.

Lemma epoch_accumulates_every_label_witness :
  train_epoch cfg train_ds 2 0 learner0 w0 = (first_epoch.1, Ok first_la) /\
  length (train_true first_la.2) = length train_ds.
Proof.
  assert (H1 : train_epoch cfg train_ds 2 0 learner0 w0
               = (first_epoch.1, Ok first_la))
    by (vm_compute; reflexivity).
  split; [exact H1|].
  exact (proj2 (epoch_accumulates_every_label cfg train_ds 2 0 learner0 w0
                  _ _ H1)).
Defined.

Lemma random_run_never_loads_witness :
  pretrained_log_name cfg_random = "random" /\
  load_calls (main cfg_random w0).1 = load_calls w0.
Proof.
  assert (H1 : pretrained_log_name cfg_random = "random") by reflexivity.
  split; [exact H1|].
  exact (random_run_never_loads cfg_random w0 H1).
Defined.

Lemma checkpoint_loaded_once_witness :
  pretrained_log_name cfg <> "random" /\
  main cfg w0 = ((main cfg w0).1, Ok tt) /\
  exists keys,
    load_calls (main cfg w0).1 =
    load_calls w0 ++ [CTorchLoad (load_path cfg); CLoadStateDict keys false].
Proof.
  assert (H1 : pretrained_log_name cfg <> "random") by discriminate.
  assert (H2 : main cfg w0 = ((main cfg w0).1, Ok tt))
    by (vm_compute; reflexivity).
  refine (conj H1 (conj H2 _)).
  exact (checkpoint_loaded_once cfg w0 _ H1 H2).
Defined.

Lemma missing_result_directory_witness :
  parent_exists (w_dirs w_no_result_dir) (result_path cfg) = false /\
  main cfg w_no_result_dir =
    (w_no_result_dir, Raise (FileNotFoundError (result_path cfg))).
Proof.
  assert (H1 : parent_exists (w_dirs w_no_result_dir) (result_path cfg) = false)
    by (vm_compute; reflexivity).
  split; [exact H1|].
  exact (missing_result_directory cfg w_no_result_dir H1).
Defined.
